(** * The voice-command interpreter (utils/nlpProcessor)

    A shallow embedding of [parseVoiceCommand], [formatCommandSummary] and the
    helpers they call, followed by the properties of the interpreter.

    Conventions of the model.
    - A string is a sequence of code units; the development takes the code
      units 0..255 (Rocq's [ascii], read as Latin-1).  [toLowerCase], [trim]
      and the regular-expression classes are the ECMAScript ones restricted to
      those code units.
    - Numbers that hold the confidence score are IEEE-754 binary64 values
      (Rocq's primitive [float]); array lengths and day counts are integers.
    - A [Date] holds a time value, the milliseconds since
      1970-01-01T00:00:00Z, or NaN.  [new Date()] reads the clock: the k-th
      read during one call is the time value [clock k].  [getDate] and
      [setDate] work on local time, and the offset of local time is the
      host's ([LocalTZA], ECMAScript's LocalTZA(t, isUTC)); [setDate] goes to
      local time, replaces the day of the month and comes back through
      [UTC] and [TimeClip].  [new Date(string)] on a non-ISO string is left
      to the engine by ECMAScript, and is a parameter ([Date_parse]).
    - A [TypeError] (calling a method on [undefined]) is an explicit outcome
      of the functions that could raise it. *)

From Stdlib Require Import ZArith Lia List Bool Ascii String Floats Uint63.
Import ListNotations.
Set Warnings "-inexact-float".

Local Open Scope list_scope.
Local Open Scope string_scope.

(* ================================================================== *)
(** * The runtime: strings, regular expressions, dates, completions    *)
(* ================================================================== *)

Module JS.

(** ** Code units *)

Definition code (c : ascii) : nat := nat_of_ascii c.

Definition inRange (lo hi : nat) (c : ascii) : bool :=
  (lo <=? code c)%nat && (code c <=? hi)%nat.

(** ECMAScript WhiteSpace and LineTerminator below 256: TAB, LF, VT, FF, CR,
    SP and NBSP.  Both [trim] and the class [\s] use this set. *)
Definition isWhiteSpace (c : ascii) : bool :=
  inRange 9 13 c || (code c =? 32)%nat || (code c =? 160)%nat.

Definition isDigit (c : ascii) : bool := inRange 48 57 c.

(** Letters with a lower-case partner: A-Z and the Latin-1 capitals
    (U+00C0..U+00DE without the multiplication sign U+00D7). *)
Definition hasLower (c : ascii) : bool :=
  inRange 65 90 c || (inRange 192 222 c && negb (code c =? 215)%nat).

(** Letters with an upper-case partner below 256: a-z and U+00E0..U+00FE
    without the division sign U+00F7. *)
Definition hasUpper (c : ascii) : bool :=
  inRange 97 122 c || (inRange 224 254 c && negb (code c =? 247)%nat).

Definition lowerChar (c : ascii) : ascii :=
  if hasLower c then ascii_of_nat (code c + 32) else c.

Definition upperChar (c : ascii) : ascii :=
  if hasUpper c then ascii_of_nat (code c - 32) else c.

(** ** Strings *)

Fixpoint mapChars (f : ascii -> ascii) (s : string) : string :=
  match s with
  | EmptyString => EmptyString
  | String c s' => String (f c) (mapChars f s')
  end.

Fixpoint filterChars (p : ascii -> bool) (s : string) : string :=
  match s with
  | EmptyString => EmptyString
  | String c s' => if p c then String c (filterChars p s') else filterChars p s'
  end.

(** [String.prototype.toLowerCase] *)
Definition toLowerCase (s : string) : string := mapChars lowerChar s.

Fixpoint trimStart (s : string) : string :=
  match s with
  | EmptyString => EmptyString
  | String c s' => if isWhiteSpace c then trimStart s' else s
  end.

Fixpoint trimEnd (s : string) : string :=
  match s with
  | EmptyString => EmptyString
  | String c s' =>
      match trimEnd s' with
      | EmptyString => if isWhiteSpace c then EmptyString else String c EmptyString
      | t => String c t
      end
  end.

(** [String.prototype.trim] *)
Definition trim (s : string) : string := trimEnd (trimStart s).

Fixpoint startsWith (p s : string) : bool :=
  match p, s with
  | EmptyString, _ => true
  | String a p', String b s' => Ascii.eqb a b && startsWith p' s'
  | String _ _, EmptyString => false
  end.

(** [String.prototype.includes]: does [needle] occur in [hay]? *)
Fixpoint includes (needle hay : string) : bool :=
  startsWith needle hay ||
  match hay with
  | EmptyString => false
  | String _ hay' => includes needle hay'
  end.

Fixpoint take (n : nat) (s : string) : string :=
  match n, s with
  | S n', String c s' => String c (take n' s')
  | _, _ => EmptyString
  end.

(** The part of [s] in front of its suffix [s']. *)
Definition consumed (s s' : string) : string :=
  take (String.length s - String.length s') s.

(** [s.split(/\s+/)]: the pieces between maximal runs of white space.  [cur]
    is the piece being read, in reverse; [inSep] tells that the previous code
    unit was white space. *)
Fixpoint revOnto (cur : list ascii) (acc : string) : string :=
  match cur with
  | [] => acc
  | c :: cur' => revOnto cur' (String c acc)
  end.

Fixpoint splitAux (s : string) (cur : list ascii) (inSep : bool) : list string :=
  match s with
  | EmptyString => [revOnto cur EmptyString]
  | String c s' =>
      if isWhiteSpace c
      then if inSep then splitAux s' [] true
           else revOnto cur EmptyString :: splitAux s' [] true
      else splitAux s' (c :: cur) false
  end.

Definition splitWhiteSpace (s : string) : list string := splitAux s [] false.

(** [Array.prototype.push] *)
Definition push {A : Type} (l : list A) (x : A) : list A := (l ++ [x])%list.

(** [Array.prototype.join] *)
Definition join (sep : string) (l : list string) : string := String.concat sep l.

(** [[...new Set(words)]]: the first occurrence of every element, in order. *)
Fixpoint uniq (seen : list string) (l : list string) : list string :=
  match l with
  | [] => []
  | w :: l' =>
      if existsb (String.eqb w) seen then uniq seen l'
      else w :: uniq (w :: seen) l'
  end.

(** Truthiness of an optional string: [undefined] and [""] are falsy. *)
Definition truthy (o : option string) : bool :=
  match o with
  | Some (String _ _) => true
  | _ => false
  end.

(** ** Regular expressions

    The fragment the interpreter's literals use: characters, classes,
    sequence, alternation, a greedy optional, a greedy or lazy bounded
    repetition of a class, a numbered capture group and [$].  Matching is the
    backtracking, continuation-passing matcher of ECMAScript. *)

Inductive ClassAtom : Type :=
  | CChar (c : ascii)
  | CRange (lo hi : ascii)
  | CSpace                   (* \s *)
  | CDigit.                  (* \d *)

Inductive regex : Type :=
  | REmpty
  | RChar (c : ascii)
  | RClass (cs : list ClassAtom)
  | RSeq (r1 r2 : regex)
  | RAlt (r1 r2 : regex)
  | ROpt (r : regex)
  | RRep (cs : list ClassAtom) (min : nat) (max : option nat) (greedy : bool)
  | RGroup (n : nat) (r : regex)
  | REnd.

Fixpoint lit (s : string) : regex :=
  match s with
  | EmptyString => REmpty
  | String c EmptyString => RChar c
  | String c s' => RSeq (RChar c) (lit s')
  end.

(** Canonicalize of the flag [i] (without [u]): the upper-case partner. *)
Definition canonicalize (ic : bool) (c : ascii) : ascii :=
  if ic then upperChar c else c.

Definition charMatches (ic : bool) (pat x : ascii) : bool :=
  Ascii.eqb (canonicalize ic pat) (canonicalize ic x).

Definition inCodeRange (lo hi x : ascii) : bool :=
  (code lo <=? code x)%nat && (code x <=? code hi)%nat.

(** Under [i] a range holds [x] when it holds [x] or its case partner. *)
Definition atomMatches (ic : bool) (a : ClassAtom) (x : ascii) : bool :=
  match a with
  | CChar c => charMatches ic c x
  | CRange lo hi =>
      inCodeRange lo hi x ||
      (ic && (inCodeRange lo hi (lowerChar x) || inCodeRange lo hi (upperChar x)))
  | CSpace => isWhiteSpace x
  | CDigit => isDigit x
  end.

Definition inClass (ic : bool) (cs : list ClassAtom) (x : ascii) : bool :=
  existsb (fun a => atomMatches ic a x) cs.

(** Captures: the most recent binding of a group number comes first. *)
Definition Captures : Type := list (nat * string).

Fixpoint capture (n : nat) (c : Captures) : option string :=
  match c with
  | [] => None
  | (m, v) :: c' => if (m =? n)%nat then Some v else capture n c'
  end.

Definition Cont : Type := string -> Captures -> option Captures.

Definition isZero (max : option nat) : bool :=
  match max with
  | Some O => true
  | _ => false
  end.

Fixpoint repeatClass (ic : bool) (cs : list ClassAtom) (greedy : bool)
    (s : string) (min : nat) (max : option nat) (c : Captures) (k : Cont)
    {struct s} : option Captures :=
  match s with
  | EmptyString =>
      match min with
      | O => k s c
      | S _ => None
      end
  | String a s' =>
      match min with
      | S min' =>
          if inClass ic cs a && negb (isZero max)
          then repeatClass ic cs greedy s' min' (option_map Nat.pred max) c k
          else None
      | O =>
          if inClass ic cs a && negb (isZero max)
          then
            if greedy
            then match repeatClass ic cs greedy s' O (option_map Nat.pred max) c k with
                 | Some m => Some m
                 | None => k s c
                 end
            else match k s c with
                 | Some m => Some m
                 | None => repeatClass ic cs greedy s' O (option_map Nat.pred max) c k
                 end
          else k s c
      end
  end.

Fixpoint rmatch (ic : bool) (r : regex) (s : string) (c : Captures) (k : Cont)
    {struct r} : option Captures :=
  match r with
  | REmpty => k s c
  | RChar p =>
      match s with
      | String x s' => if charMatches ic p x then k s' c else None
      | EmptyString => None
      end
  | RClass cs =>
      match s with
      | String x s' => if inClass ic cs x then k s' c else None
      | EmptyString => None
      end
  | RSeq r1 r2 => rmatch ic r1 s c (fun s' c' => rmatch ic r2 s' c' k)
  | RAlt r1 r2 =>
      match rmatch ic r1 s c k with
      | Some m => Some m
      | None => rmatch ic r2 s c k
      end
  | ROpt r1 =>
      match rmatch ic r1 s c k with
      | Some m => Some m
      | None => k s c
      end
  | RRep cs min max greedy => repeatClass ic cs greedy s min max c k
  | RGroup n r1 => rmatch ic r1 s c (fun s' c' => k s' ((n, consumed s s') :: c'))
  | REnd =>
      match s with
      | EmptyString => k s c
      | String _ _ => None
      end
  end.

(** One attempt at the front of [s]; group 0 is the whole match. *)
Definition matchHere (ic : bool) (r : regex) (s : string) : option Captures :=
  rmatch ic r s [] (fun s' c => Some ((0%nat, consumed s s') :: c)).

(** [text.match(r)] for a regex without the flag [g]: the leftmost start
    position at which the matcher succeeds, or [null]. *)
Fixpoint regexMatch (ic : bool) (r : regex) (text : string) : option Captures :=
  match matchHere ic r text with
  | Some m => Some m
  | None =>
      match text with
      | EmptyString => None
      | String _ text' => regexMatch ic r text'
      end
  end.

(** [a || b] on match results. *)
Definition orElse {A : Type} (a : option A) (b : option A) : option A :=
  match a with
  | Some m => Some m
  | None => b
  end.

(** ** Completions: a value, or a thrown TypeError *)

Inductive Completion (A : Type) : Type :=
  | Normal (a : A)
  | ThrowTypeError.
Arguments Normal {A} a.
Arguments ThrowTypeError {A}.

Definition bind {A B : Type} (m : Completion A) (f : A -> Completion B) : Completion B :=
  match m with
  | Normal a => f a
  | ThrowTypeError => ThrowTypeError
  end.

Notation "x <- m ;; k" := (bind m (fun x => k))
  (at level 61, m at next level, right associativity).

(** [m[1].trim()]: a method call on [undefined] throws. *)
Definition trimOf (o : option string) : Completion string :=
  match o with
  | Some s => Normal (trim s)
  | None => ThrowTypeError
  end.

(** ** Dates *)

(** The [[DateValue]] of a date object: a time value or NaN. *)
Inductive Date : Type :=
  | TimeValue (tv : Z)
  | InvalidDate.

Definition msPerDay : Z := 86400000.

(** Day(t) = floor(t / msPerDay) *)
Definition Day (t : Z) : Z := (t / msPerDay)%Z.

(** TimeWithinDay(t) = t modulo msPerDay *)
Definition TimeWithinDay (t : Z) : Z := (t mod msPerDay)%Z.

(** Day of the month (1..31) of a civil day number counted from 1970-01-01. *)
Definition DateFromTime (day : Z) : Z :=
  let z := (day + 719468)%Z in
  let doe := (z mod 146097)%Z in
  let yoe := ((doe - doe / 1460 + doe / 36524 - doe / 146096) / 365)%Z in
  let doy := (doe - (365 * yoe + yoe / 4 - yoe / 100))%Z in
  let mp := ((5 * doy + 2) / 153)%Z in
  (doy - (153 * mp + 2) / 5 + 1)%Z.

(** Day number of the first day of the month that holds [day]. *)
Definition monthStart (day : Z) : Z := (day - DateFromTime day + 1)%Z.

(** MakeDate(day, time) *)
Definition MakeDate (day time : Z) : Z := (day * msPerDay + time)%Z.

(** TimeClip(time): a time value beyond 8.64e15 ms of the epoch is NaN. *)
Definition TimeClip (time : Z) : Date :=
  if (8640000000000000 <? Z.abs time)%Z then InvalidDate else TimeValue time.

(** What the program sees of its host: the clock, the offset of local time
    (LocalTZA(t, isUTC), in milliseconds) and the engine's parser of date
    strings. *)
Class Host : Type := {
  clock : nat -> Z;
  LocalTZA : Z -> bool -> Z;
  Date_parse : string -> Date
}.

(** LocalTime(t) = t + LocalTZA(t, true) *)
Definition LocalTime {host : Host} (t : Z) : Z := (t + LocalTZA t true)%Z.

(** UTC(t) = t - LocalTZA(t, false) *)
Definition UTC {host : Host} (t : Z) : Z := (t - LocalTZA t false)%Z.

(** [getDate()]: DateFromTime(LocalTime(t)); [None] stands for NaN. *)
Definition getDate {host : Host} (d : Date) : option Z :=
  match d with
  | TimeValue t => Some (DateFromTime (Day (LocalTime t)))
  | InvalidDate => None
  end.

(** [setDate(dt)]: with t the local time of the date,
    TimeClip(UTC(MakeDate(MakeDay(YearFromTime(t), MonthFromTime(t), dt),
    TimeWithinDay(t)))); MakeDay of the year and month of [t] with day [dt]
    is the first day of that month plus [dt - 1]. *)
Definition setDate {host : Host} (d : Date) (dt : option Z) : Date :=
  match d, dt with
  | TimeValue tv, Some n =>
      let t := LocalTime tv in
      let made := MakeDate (monthStart (Day t) + n - 1) (TimeWithinDay t) in
      TimeClip (UTC made)
  | _, _ => InvalidDate
  end.

(** The k-th [new Date()] of a call. *)
Definition newDate {host : Host} (k : nat) : Date := TimeValue (clock k).

(** ** Numbers *)

Definition ofLength (n : nat) : float :=
  PrimFloat.of_uint63 (Uint63.of_Z (Z.of_nat n)).

(** [Math.min] on two numbers that are not NaN and not both zero. *)
Definition Math_min (a b : float) : float :=
  if (a <? b)%float then a else b.

End JS.

(* ================================================================== *)
(** * The program                                                      *)
(* ================================================================== *)

Module Nlp.
Import JS.

Inductive CommandIntent : Type :=
  | search_cases
  | filter_cases
  | temporal_query
  | location_query
  | suspect_query
  | crime_type_query
  | unknown.

Definition isUnknown (i : CommandIntent) : bool :=
  match i with
  | unknown => true
  | _ => false
  end.

Record TimeRange : Type := mkTimeRange {
  start : option Date;
  end_ : option Date;
  relative : option string
}.

Record CommandEntities : Type := mkEntities {
  crimeType : option (list string);
  location : option string;
  timeRange : option TimeRange;
  suspect : option string;
  caseId : option string;
  keywords : option (list string)
}.

Record ParsedCommand : Type := mkParsed {
  intent : CommandIntent;
  entities : CommandEntities;
  confidence : float;
  rawText : string;
  needsClarification : bool;
  clarificationQuestion : option string
}.

(** The object literal [{}]. *)
Definition noEntities : CommandEntities :=
  mkEntities None None None None None None.

Definition CRIME_TYPES : list string :=
  [ "armed robbery";
    "robbery";
    "burglary";
    "theft";
    "assault";
    "homicide";
    "murder";
    "fraud";
    "arson";
    "kidnapping";
    "vandalism";
    "drug trafficking";
    "weapons violation" ].

Record Window : Type := mkWindow {
  days : Z;
  offset : option Z
}.

(** The entries of the table, in insertion order ([Object.entries]). *)
Definition TEMPORAL_KEYWORDS : list (string * Window) :=
  [ ("today", mkWindow 0 None);
    ("yesterday", mkWindow 1 None);
    ("this week", mkWindow 7 None);
    ("last week", mkWindow 14 (Some 7%Z));
    ("this month", mkWindow 30 None);
    ("last month", mkWindow 60 (Some 30%Z));
    ("this year", mkWindow 365 None) ].

(** ** The regular-expression literals *)

Definition spaces : regex := RRep [CSpace] 1 None true.            (* \s+ *)
Definition spaceOrEnd : regex := RAlt (RClass [CSpace]) REnd.      (* (?:\s|$) *)
Definition az : ClassAtom := CRange "a" "z".
Definition d09 : ClassAtom := CRange "0" "9".

(** /(?:in|near|at|around)\s+([a-z0-9\s]+?)(?:\s|$)/i *)
Definition prepositionRe : regex :=
  RSeq (RAlt (lit "in") (RAlt (lit "near") (RAlt (lit "at") (lit "around"))))
   (RSeq spaces
    (RSeq (RGroup 1 (RRep [az; d09; CSpace] 1 None false))
     spaceOrEnd)).

(** /sector\s+(\d+)/i *)
Definition sectorRe : regex :=
  RSeq (lit "sector") (RSeq spaces (RGroup 1 (RRep [CDigit] 1 None true))).

(** /district\s+([a-z0-9\s]+)/i *)
Definition districtRe : regex :=
  RSeq (lit "district")
   (RSeq spaces (RGroup 1 (RRep [az; d09; CSpace] 1 None true))).

(** /suspect(?:\s+named)?\s+([a-z\s]+?)(?:\s|$)/i *)
Definition suspectRe : regex :=
  RSeq (lit "suspect")
   (RSeq (ROpt (RSeq spaces (lit "named")))
    (RSeq spaces
     (RSeq (RGroup 1 (RRep [az; CSpace] 1 None false))
      spaceOrEnd))).

(** /case\s+(?:id\s+)?([a-z0-9-]+)/i *)
Definition caseIdRe : regex :=
  RSeq (lit "case")
   (RSeq spaces
    (RSeq (ROpt (RSeq (lit "id") spaces))
     (RGroup 1 (RRep [az; d09; CChar "-"] 1 None true)))).

(** /(\d{1,2}\/\d{1,2}\/\d{4})/ *)
Definition dateRe : regex :=
  RGroup 1
   (RSeq (RRep [CDigit] 1 (Some 2%nat) true)
    (RSeq (RChar "/")
     (RSeq (RRep [CDigit] 1 (Some 2%nat) true)
      (RSeq (RChar "/")
       (RRep [CDigit] 4 (Some 4%nat) true))))).

(** ** Predicates of the intent cascade *)

Definition containsCrimeType (text : string) : bool :=
  existsb (fun type => includes type text) CRIME_TYPES.

Definition containsLocation (text : string) : bool :=
  includes "in " text ||
  includes "near " text ||
  includes "at " text ||
  includes "around " text ||
  includes "sector" text ||
  includes "district" text.

Definition containsTimeReference (text : string) : bool :=
  existsb (fun keyword => includes keyword text) (map fst TEMPORAL_KEYWORDS).

Definition determineIntent (text : string) : CommandIntent :=
  if includes "show" text ||
     includes "find" text ||
     includes "search" text ||
     includes "get" text
  then
    if containsCrimeType text then crime_type_query
    else if containsLocation text then location_query
    else if containsTimeReference text then temporal_query
    else search_cases
  else if includes "filter" text || includes "narrow" text || includes "matching" text
  then filter_cases
  else if containsTimeReference text then temporal_query
  else if containsLocation text then location_query
  else if includes "suspect" text || includes "perpetrator" text then suspect_query
  else unknown.

(** ** Time range *)

Section WithHost.
Context {host : Host}.

(** ['offset' in value && value.offset] *)
Definition hasOffset (w : Window) : option Z :=
  match offset w with
  | Some o => if (o =? 0)%Z then None else Some o
  | None => None
  end.

(** The body of the loop for one entry whose keyword occurs in the text. *)
Definition relativeWindow (keyword : string) (value : Window) : TimeRange :=
  let end0 := newDate 0 in
  let start0 := newDate 1 in
  let start1 := setDate start0 (option_map (fun d => d - days value)%Z (getDate start0)) in
  let end1 :=
    match hasOffset value with
    | Some o => setDate end0 (option_map (fun d => d - o)%Z (getDate end0))
    | None => end0
    end in
  mkTimeRange (Some start1) (Some end1) (Some keyword).

(** The [for ... of Object.entries(TEMPORAL_KEYWORDS)] loop: [Some] is the
    [return] inside it, [None] is falling out of the loop. *)
Fixpoint scanKeywords (entries : list (string * Window)) (text : string)
    : option TimeRange :=
  match entries with
  | [] => None
  | (keyword, value) :: rest =>
      if includes keyword text then Some (relativeWindow keyword value)
      else scanKeywords rest text
  end.

Definition extractTimeRange (text : string) : option TimeRange :=
  match scanKeywords TEMPORAL_KEYWORDS text with
  | Some tr => Some tr
  | None =>
      match regexMatch false dateRe text with
      | Some dateMatch =>
          let date :=
            match capture 1 dateMatch with
            | Some d => Date_parse d
            | None => InvalidDate
            end in
          Some (mkTimeRange (Some date) (Some date) None)
      | None => None
      end
  end.

(** ** Keywords *)

Definition stopWords : list string :=
  [ "the"; "a"; "an"; "and"; "or"; "but"; "in"; "on"; "at"; "to"; "for"; "of";
    "with"; "by"; "from"; "show"; "find"; "search"; "get"; "me"; "all" ].

(** [word.toLowerCase().replace(/[^a-z0-9]/g, '')] *)
Definition cleanWord (word : string) : string :=
  filterChars (inClass false [az; d09]) (toLowerCase word).

Definition extractKeywords (text : string) : list string :=
  let words :=
    filter (fun word => (2 <? String.length word)%nat &&
                        negb (existsb (String.eqb word) stopWords))
      (map cleanWord (splitWhiteSpace text)) in
  uniq [] words.

(** ** Entities *)

(** Assignments to the fields of the entities object. *)
Definition setCrimeType (v : list string) (e : CommandEntities) : CommandEntities :=
  mkEntities (Some v) (location e) (timeRange e) (suspect e) (caseId e) (keywords e).

Definition setLocation (v : string) (e : CommandEntities) : CommandEntities :=
  mkEntities (crimeType e) (Some v) (timeRange e) (suspect e) (caseId e) (keywords e).

Definition setTimeRange (v : TimeRange) (e : CommandEntities) : CommandEntities :=
  mkEntities (crimeType e) (location e) (Some v) (suspect e) (caseId e) (keywords e).

Definition setSuspect (v : string) (e : CommandEntities) : CommandEntities :=
  mkEntities (crimeType e) (location e) (timeRange e) (Some v) (caseId e) (keywords e).

(** [entities.caseId = caseIdMatch[1]]: the value is the capture as it is. *)
Definition setCaseId (v : option string) (e : CommandEntities) : CommandEntities :=
  mkEntities (crimeType e) (location e) (timeRange e) (suspect e) v (keywords e).

Definition setKeywords (v : list string) (e : CommandEntities) : CommandEntities :=
  mkEntities (crimeType e) (location e) (timeRange e) (suspect e) (caseId e) (Some v).

Definition extractEntities (text : string) : Completion CommandEntities :=
  let entities := noEntities in
  let crimeTypes := filter (fun type => includes type text) CRIME_TYPES in
  let entities :=
    if (0 <? List.length crimeTypes)%nat
    then setCrimeType crimeTypes entities
    else entities in
  let locationMatch :=
    orElse (regexMatch true prepositionRe text)
      (orElse (regexMatch true sectorRe text)
         (regexMatch true districtRe text)) in
  entities <-
    match locationMatch with
    | Some m => loc <- trimOf (capture 1 m) ;; Normal (setLocation loc entities)
    | None => Normal entities
    end ;;
  let timeRange := extractTimeRange text in
  let entities :=
    match timeRange with
    | Some tr => setTimeRange tr entities
    | None => entities
    end in
  let suspectMatch := regexMatch true suspectRe text in
  entities <-
    match suspectMatch with
    | Some m => sus <- trimOf (capture 1 m) ;; Normal (setSuspect sus entities)
    | None => Normal entities
    end ;;
  let caseIdMatch := regexMatch true caseIdRe text in
  let entities :=
    match caseIdMatch with
    | Some m => setCaseId (capture 1 m) entities
    | None => entities
    end in
  let keywords := extractKeywords text in
  let entities :=
    if (0 <? List.length keywords)%nat
    then setKeywords keywords entities
    else entities in
  Normal entities.

(** ** Confidence *)

Definition present {A : Type} (o : option A) : nat :=
  match o with
  | Some _ => 1
  | None => 0
  end.

(** [Object.keys(entities).length] *)
Definition entityCount (e : CommandEntities) : nat :=
  present (crimeType e) + present (location e) + present (timeRange e) +
  present (suspect e) + present (caseId e) + present (keywords e).

Definition calculateConfidence (intent : CommandIntent) (entities : CommandEntities)
    (text : string) : float :=
  let score := 0%float in
  let score := if negb (isUnknown intent) then (score + 0.3)%float else score in
  let score := (score + Math_min (ofLength (entityCount entities) * 0.2) 0.4)%float in
  let wordCount := List.length (splitWhiteSpace text) in
  let score := if (4 <=? wordCount)%nat then (score + 0.2)%float else score in
  let score := if (8 <=? wordCount)%nat then (score + 0.1)%float else score in
  Math_min score 1.0.

(** ** Clarification *)

Definition isNone {A : Type} (o : option A) : bool :=
  match o with
  | Some _ => false
  | None => true
  end.

Definition generateClarificationQuestion (intent : CommandIntent)
    (entities : CommandEntities) (text : string) : string :=
  if isUnknown intent
  then "I didn't quite understand that. Could you please rephrase your query?"
  else if isNone (crimeType entities) && negb (truthy (location entities)) &&
          isNone (timeRange entities)
  then "Could you please specify more details, such as crime type, location, or time period?"
  else if match crimeType entities with
          | Some l => (1 <? List.length l)%nat
          | None => false
          end
  then "I detected multiple crime types: " ++
       join ", " (match crimeType entities with Some l => l | None => [] end) ++
       ". Which one would you like to search for?"
  else if isNone (timeRange entities)
  then "What time period would you like to search? For example: this month, last week, or a specific date?"
  else if negb (truthy (location entities))
  then "Which location or sector would you like to search?"
  else "Could you please provide more specific details for your search?".

(** ** The interpreter *)

Definition normalize (text : string) : string := trim (toLowerCase text).

Definition parseVoiceCommand (text : string) : Completion ParsedCommand :=
  let normalizedText := normalize text in
  let intent := determineIntent normalizedText in
  entities <- extractEntities normalizedText ;;
  let confidence := calculateConfidence intent entities normalizedText in
  let needsClarification := (confidence <? 0.7)%float in
  let clarificationQuestion :=
    if needsClarification
    then Some (generateClarificationQuestion intent entities normalizedText)
    else None in
  Normal (mkParsed intent entities confidence text needsClarification
            clarificationQuestion).

End WithHost.

(** ** Summary *)

(** The value of a string field already known to be truthy. *)
Definition valueOf (o : option string) : string :=
  match o with
  | Some s => s
  | None => ""
  end.

Definition formatCommandSummary (parsed : ParsedCommand) : string :=
  let parts : list string := [] in
  let parts :=
    match crimeType (entities parsed) with
    | Some l =>
        if (0 <? List.length l)%nat
        then push parts ("Crime: " ++ join ", " l)
        else parts
    | None => parts
    end in
  let parts :=
    if truthy (location (entities parsed))
    then push parts ("Location: " ++ valueOf (location (entities parsed)))
    else parts in
  let relativeLabel :=
    match timeRange (entities parsed) with
    | Some tr => relative tr
    | None => None
    end in
  let parts :=
    if truthy relativeLabel
    then push parts ("Time: " ++ valueOf relativeLabel)
    else parts in
  let parts :=
    if truthy (suspect (entities parsed))
    then push parts ("Suspect: " ++ valueOf (suspect (entities parsed)))
    else parts in
  let parts :=
    if truthy (caseId (entities parsed))
    then push parts ("Case ID: " ++ valueOf (caseId (entities parsed)))
    else parts in
  if (0 <? List.length parts)%nat then join " | " parts else "General search".

End Nlp.

(* ================================================================== *)
(** * Vocabulary of the statements                                     *)
(* ================================================================== *)

Module Props.
Import JS Nlp.

(** [u] occurs in [s]. *)
Definition Substring (u s : string) : Prop :=
  exists pre post, s = pre ++ u ++ post.

Fixpoint allChars (p : ascii -> bool) (s : string) : bool :=
  match s with
  | EmptyString => true
  | String x s' => p x && allChars p s'
  end.

(** The first code unit of [s] exists and satisfies [p]. *)
Definition headIs (p : ascii -> bool) (s : string) : bool :=
  match s with
  | EmptyString => false
  | String x _ => p x
  end.

(** No code unit of [s] has a lower-case partner. *)
Definition lowered (s : string) : bool := allChars (fun x => negb (hasLower x)) s.

(** Pointwise agreement of a pattern with a text under the flag [i]. *)
Fixpoint sameLetters (ic : bool) (l s : string) : bool :=
  match l, s with
  | EmptyString, EmptyString => true
  | String p l', String x s' => charMatches ic p x && sameLetters ic l' s'
  | _, _ => false
  end.

(** Does the regex bind group [n] on every path through it? *)
Fixpoint binds (n : nat) (r : regex) : bool :=
  match r with
  | RGroup m r1 => (m =? n)%nat || binds n r1
  | RSeq r1 r2 => binds n r1 || binds n r2
  | RAlt r1 r2 => binds n r1 && binds n r2
  | _ => false
  end.


(** A host to evaluate closed examples on: local time is UTC, and the clock
    starts at noon of 2025-11-01 and moves a millisecond at each reading. *)
Definition sampleHost : Host :=
  {| clock := fun k => (20393 * msPerDay + 43200000 + Z.of_nat k)%Z;
     LocalTZA := fun _ _ => 0%Z;
     Date_parse := fun s =>
       if String.eqb s "12/25/2024" then TimeValue (20082 * msPerDay) else InvalidDate |}.

(** A host on New York time in 2025: five hours behind UTC, four between
    2025-03-09T07:00Z and 2025-11-02T06:00Z; a local time that is skipped
    or repeated is read with the offset before the change.  The clock
    starts at 02:30 local time on 2025-03-16 (06:30Z). *)
Definition newYork2025 : Host :=
  {| clock := fun k => (20163 * msPerDay + 23400000 + Z.of_nat k)%Z;
     LocalTZA := fun t isUTC =>
       if isUTC
       then if ((20156 * msPerDay + 25200000 <=? t) &&
                (t <? 20394 * msPerDay + 21600000))%Z
            then (-14400000)%Z else (-18000000)%Z
       else if ((20156 * msPerDay + 10800000 <=? t) &&
                (t <? 20394 * msPerDay + 7200000))%Z
            then (-14400000)%Z else (-18000000)%Z;
     Date_parse := fun s =>
       if String.eqb s "12/25/2024"
       then TimeValue (20082 * msPerDay + 18000000) else InvalidDate |}.

(** ** Shapes of text

    A date literal: one or two digits, a slash, one or two digits, a slash
    and four digits. *)
Definition DateShaped (d : string) : Prop :=
  exists m dd y,
    d = m ++ "/" ++ dd ++ "/" ++ y /\
    allChars isDigit m = true /\ (1 <= String.length m <= 2)%nat /\
    allChars isDigit dd = true /\ (1 <= String.length dd <= 2)%nat /\
    allChars isDigit y = true /\ String.length y = 4%nat.


(** [P] holds of no suffix of [pre ++ rest] that starts inside [pre]. *)
Definition NoneBefore (P : string -> Prop) (pre rest : string) : Prop :=
  forall p q, pre = p ++ q -> q <> "" -> ~ P (q ++ rest).

(** A code unit of a case identifier in lower-cased text: a letter a-z, a
    digit or a hyphen. *)
Definition isTokenChar (x : ascii) : bool :=
  inRange 97 122 x || isDigit x || Ascii.eqb x "-".

(** White space, at least one code unit of it, and then the start of a
    token. *)
Definition SpacesThenToken (s : string) : Prop :=
  exists ws x s',
    s = ws ++ String x s' /\ ws <> "" /\
    allChars isWhiteSpace ws = true /\ isTokenChar x = true.

(** The word "case", white space and the start of a token. *)
Definition CaseThenToken (s : string) : Prop :=
  exists r, s = "case" ++ r /\ SpacesThenToken r.

(** ** The summary, in the words of its description

    The five fields of the summary in their fixed order, each with its label
    and its text when the field is there. *)
Definition relativeLabel (e : CommandEntities) : option string :=
  match timeRange e with
  | Some tr => relative tr
  | None => None
  end.

Definition summaryFields (e : CommandEntities) : list (string * option string) :=
  [ ("Crime: ", option_map (join ", ") (crimeType e));
    ("Location: ", location e);
    ("Time: ", relativeLabel e);
    ("Suspect: ", suspect e);
    ("Case ID: ", caseId e) ].

Definition labelled (f : string * option string) : list string :=
  match snd f with
  | Some v => [fst f ++ v]
  | None => []
  end.

Definition summaryOf (e : CommandEntities) : string :=
  match flat_map labelled (summaryFields e) with
  | [] => "General search"
  | parts => join " | " parts
  end.

(** Entities whose present fields all hold something: a non-empty list of
    crime types, a non-empty string. *)
Definition filled (o : option string) : Prop := o <> Some "".

Definition everyFieldFilled (e : CommandEntities) : Prop :=
  crimeType e <> Some [] /\
  filled (location e) /\
  filled (relativeLabel e) /\
  filled (suspect e) /\
  filled (caseId e).

(** The entities with every empty value taken for an absent one. *)
Definition dropEmptyString (o : option string) : option string :=
  if truthy o then o else None.

Definition dropEmpty (e : CommandEntities) : CommandEntities :=
  mkEntities
    (match crimeType e with Some [] => None | o => o end)
    (dropEmptyString (location e))
    (match timeRange e with
     | Some tr => Some (mkTimeRange (start tr) (end_ tr) (dropEmptyString (relative tr)))
     | None => None
     end)
    (dropEmptyString (suspect e))
    (dropEmptyString (caseId e))
    (keywords e).

End Props.


(* ================================================================== *)
(** * The caller: the voice command center                             *)
(* ================================================================== *)

Module Center.
Import JS Nlp.

(** What [handleVoiceCommand] does to the outside: calls of [console.log],
    [speak], [toast] and the [onCommandParsed] property. *)
Inductive Effect : Type :=
  | ConsoleLog (label : string) (parsed : ParsedCommand)
  | Speak (text : string) (rate pitch : float)
  | Toast (title description : string)
  | OnCommandParsed (parsed : ParsedCommand).

(** The two pieces of component state the handler writes. *)
Record CenterState : Type := mkCenter {
  lastCommand : option ParsedCommand;
  commandHistory : list string
}.

Definition initialCenter : CenterState := mkCenter None [].

(** [Array.prototype.slice(0, n)] *)
Definition slice0 {A : Type} (n : nat) (l : list A) : list A := firstn n l.

Section WithHost.
Context {host : Host}.

(** [handleVoiceCommand]; [hasListener] tells whether the [onCommandParsed]
    property was given. *)
Definition handleVoiceCommand (hasListener : bool) (text : string)
    (st : CenterState) : Completion (CenterState * list Effect) :=
  parsed <- parseVoiceCommand text ;;
  let st := mkCenter (Some parsed) (commandHistory st) in
  let st := mkCenter (lastCommand st) (text :: slice0 4 (commandHistory st)) in
  let effects := [ConsoleLog "Parsed command:" parsed] in
  let effects :=
    if needsClarification parsed && truthy (clarificationQuestion parsed)
    then
      let question := valueOf (clarificationQuestion parsed) in
      (effects ++ [Speak question 1.0 1.0;
                   Toast "Clarification Needed" question])%list
    else
      let summary := formatCommandSummary parsed in
      (effects ++ [Speak ("Searching for " ++ summary) 1.1 1.0;
                   Toast "Command Recognized" summary])%list in
  let effects :=
    if hasListener then (effects ++ [OnCommandParsed parsed])%list else effects in
  Normal (st, effects).

(** The recognition callback: only a final, non-blank transcript is
    handled. *)
Definition onRecognitionResult (hasListener : bool) (isFinal : bool)
    (transcript : string) (st : CenterState)
    : Completion (CenterState * list Effect) :=
  if isFinal && truthy (Some (trim transcript))
  then handleVoiceCommand hasListener transcript st
  else Normal (st, []).

(** A run of commands, one after the other, the effects in order. *)
Fixpoint handleAll (hasListener : bool) (texts : list string) (st : CenterState)
    : Completion (CenterState * list Effect) :=
  match texts with
  | [] => Normal (st, [])
  | text :: rest =>
      r <- handleVoiceCommand hasListener text st ;;
      r' <- handleAll hasListener rest (fst r) ;;
      Normal (fst r', (snd r ++ snd r')%list)
  end.

End WithHost.

End Center.

(* ================================================================== *)
(** * Vocabulary of the further statements                             *)
(* ================================================================== *)

Module More.
Import JS Nlp Props.

(** A lower-case letter or a digit: what [cleanWord] keeps. *)
Definition isLowerAlnum (x : ascii) : bool := inRange 97 122 x || isDigit x.

Definition isLowerLetter (x : ascii) : bool := inRange 97 122 x.

(** The leading run of letters and digits of a phrase. *)
Fixpoint firstWord (s : string) : string :=
  match s with
  | EmptyString => EmptyString
  | String x s' => if isLowerAlnum x then String x (firstWord s') else EmptyString
  end.

(** A word that, found in a text, yields a keyword: letters and digits,
    longer than two, and inside no stop word. *)
Definition yieldsKeyword (w : string) : bool :=
  allChars isLowerAlnum w && (2 <? String.length w)%nat &&
  forallb (fun stop => negb (includes w stop)) stopWords.

(** A regex without a capture group. *)
Fixpoint groupless (r : regex) : bool :=
  match r with
  | RSeq r1 r2 | RAlt r1 r2 => groupless r1 && groupless r2
  | ROpt r1 => groupless r1
  | RGroup _ _ => false
  | _ => true
  end.

(** A letter, a digit or white space: the class of the location patterns on
    lower-cased text. *)
Definition isLocationChar (x : ascii) : bool := isLowerAlnum x || isWhiteSpace x.

(** The three quantities the score is computed from. *)
Definition wordCountOf (t : string) : nat := List.length (splitWhiteSpace (normalize t)).

(** The outcome of the threshold test as a table over those quantities. *)
Definition clarifies (known : bool) (fields words : nat) : bool :=
  negb ((known && (2 <=? fields)%nat) ||
        (known && (fields =? 1)%nat && (4 <=? words)%nat) ||
        (negb known && (2 <=? fields)%nat && (8 <=? words)%nat)).

Definition questionUnknown : string :=
  "I didn't quite understand that. Could you please rephrase your query?".

Definition questionDetails : string :=
  "Could you please specify more details, such as crime type, location, or time period?".

Definition questionTime : string :=
  "What time period would you like to search? For example: this month, last week, or a specific date?".

End More.
(* ================================================================== *)
(** * Facts about the runtime                                          *)
(* ================================================================== *)

Import JS Nlp Props.

(** The class of the case-identifier pattern, [[a-z0-9-]]. *)
Local Abbreviation tokenClass := [az; d09; CChar "-"].

(** A statement about one code unit, decided on each of the 256. *)
Ltac by_cases_on x :=
  destruct x as [[] [] [] [] [] [] [] []]; vm_compute; try reflexivity; try discriminate.

Section StringFacts.

Lemma append_assoc' (a b c : string) : (a ++ b) ++ c = a ++ (b ++ c).
Proof. induction a as [|x a IH]; simpl; [reflexivity | now rewrite IH]. Qed.

Lemma append_empty_r (s : string) : s ++ "" = s.
Proof. induction s as [|x s IH]; simpl; [reflexivity | now rewrite IH]. Qed.

Lemma length_append' (a b : string) :
  String.length (a ++ b) = (String.length a + String.length b)%nat.
Proof. induction a as [|x a IH]; simpl; [reflexivity | now rewrite IH]. Qed.

Lemma take_append (a b : string) : take (String.length a) (a ++ b) = a.
Proof. induction a as [|x a IH]; simpl; [now destruct b | now rewrite IH]. Qed.

Lemma consumed_append (a b : string) : consumed (a ++ b) b = a.
Proof.
  unfold consumed. rewrite length_append'.
  replace (String.length a + String.length b - String.length b)%nat
    with (String.length a) by lia.
  apply take_append.
Qed.

Lemma startsWith_append (p s : string) : startsWith p (p ++ s) = true.
Proof.
  induction p as [|x p IH]; simpl; [reflexivity|].
  now rewrite Ascii.eqb_refl, IH.
Qed.

Lemma startsWith_inv (p s : string) :
  startsWith p s = true -> exists s', s = p ++ s'.
Proof.
  revert s. induction p as [|x p IH]; intros s H; simpl in *.
  - now exists s.
  - destruct s as [|y s]; [discriminate|].
    apply andb_true_iff in H as [Hxy Hp].
    apply Ascii.eqb_eq in Hxy. subst y.
    destruct (IH _ Hp) as [s' ->]. now exists s'.
Qed.

Lemma includes_cons (u : string) (x : ascii) (s : string) :
  includes u (String x s) = startsWith u (String x s) || includes u s.
Proof. reflexivity. Qed.

Lemma includes_iff (u s : string) : includes u s = true <-> Substring u s.
Proof.
  split.
  - induction s as [|x s IH]; intros H.
    + simpl in H. rewrite orb_false_r in H.
      apply startsWith_inv in H as [s' ->]. now exists "", s'.
    + rewrite includes_cons in H. apply orb_true_iff in H as [H|H].
      * apply startsWith_inv in H as [s' ->]. now exists "", s'.
      * destruct (IH H) as (pre & post & ->). now exists (String x pre), post.
  - intros (pre & post & ->).
    induction pre as [|x pre IH].
    + simpl append. destruct (u ++ post) eqn:E.
      * simpl. rewrite <- E, startsWith_append. reflexivity.
      * rewrite includes_cons, <- E, startsWith_append. reflexivity.
    + change (String x pre ++ u ++ post) with (String x (pre ++ u ++ post)).
      rewrite includes_cons, IH. apply orb_true_r.
Qed.

Lemma includes_false_iff (u s : string) : includes u s = false <-> ~ Substring u s.
Proof.
  rewrite <- includes_iff. destruct (includes u s); split; congruence.
Qed.

Lemma allChars_append (p : ascii -> bool) (a b : string) :
  allChars p (a ++ b) = allChars p a && allChars p b.
Proof.
  induction a as [|x a IH]; simpl; [reflexivity|].
  now rewrite IH, andb_assoc.
Qed.

(** "in " lies inside "within ". *)
Lemma includes_within_in (text : string) :
  includes "within " text = true -> includes "in " text = true.
Proof.
  intros H. apply includes_iff in H as (pre & post & ->).
  apply includes_iff. exists (pre ++ "with"), post.
  rewrite append_assoc'. reflexivity.
Qed.

End StringFacts.

Section MatcherFacts.

Variable ic : bool.

(** A successful repetition consumed a run of class members whose length
    respects the bounds, and then the continuation succeeded. *)
Lemma repeatClass_inv (cs : list ClassAtom) (greedy : bool) (k : Cont) (c m : Captures) :
  forall (s : string) (min : nat) (max : option nat),
    repeatClass ic cs greedy s min max c k = Some m ->
    exists run s',
      s = run ++ s' /\
      allChars (inClass ic cs) run = true /\
      (min <= String.length run)%nat /\
      (forall M, max = Some M -> (String.length run <= M)%nat) /\
      k s' c = Some m.
Proof.
  induction s as [|a s IH]; intros min max H.
  - destruct min; simpl in H; [|discriminate].
    exists "", "". repeat split; auto. intros; simpl; lia.
  - assert (Hstop : k (String a s) c = Some m -> min = 0%nat ->
              exists run s', String a s = run ++ s' /\
                allChars (inClass ic cs) run = true /\
                (min <= String.length run)%nat /\
                (forall M, max = Some M -> (String.length run <= M)%nat) /\
                k s' c = Some m).
    { intros Hk ->. exists "", (String a s). repeat split; auto.
      intros; simpl; lia. }
    assert (Hmore : forall min',
              inClass ic cs a && negb (isZero max) = true ->
              repeatClass ic cs greedy s min' (option_map Nat.pred max) c k = Some m ->
              (min <= S min')%nat ->
              exists run s', String a s = run ++ s' /\
                allChars (inClass ic cs) run = true /\
                (min <= String.length run)%nat /\
                (forall M, max = Some M -> (String.length run <= M)%nat) /\
                k s' c = Some m).
    { intros min' Hc Hr Hmin.
      apply andb_true_iff in Hc as [Ha Hz].
      destruct (IH _ _ Hr) as (run & s' & -> & Hall & Hlen & Hmax & Hk).
      exists (String a run), s'. simpl. rewrite Ha, Hall.
      repeat split; auto; [lia|].
      intros M ->. simpl in Hz. destruct M as [|M]; [discriminate|].
      specialize (Hmax M eq_refl). lia. }
    simpl in H. destruct min as [|min'].
    + destruct (inClass ic cs a && negb (isZero max)) eqn:Hc.
      * destruct greedy.
        -- destruct (repeatClass ic cs true s 0 (option_map Nat.pred max) c k) eqn:Hr.
           ++ inversion H; subst. eapply Hmore; eauto.
           ++ now apply Hstop.
        -- destruct (k (String a s) c) eqn:Hk.
           ++ inversion H; subst. now apply Hstop.
           ++ eapply Hmore; eauto.
      * now apply Hstop.
    + destruct (inClass ic cs a && negb (isZero max)) eqn:Hc; [|discriminate].
      eapply Hmore; eauto.
Qed.

(** A greedy repetition followed by a continuation that accepts right after
    the longest admissible run returns that continuation's result. *)
Lemma repeatClass_greedy (cs : list ClassAtom) (k : Cont) (c m : Captures) :
  forall (run rest : string) (min : nat) (max : option nat),
    allChars (inClass ic cs) run = true ->
    (min <= String.length run)%nat ->
    (forall M, max = Some M -> (String.length run <= M)%nat) ->
    headIs (inClass ic cs) rest = false \/ max = Some (String.length run) ->
    k rest c = Some m ->
    repeatClass ic cs true (run ++ rest) min max c k = Some m.
Proof.
  induction run as [|a run IH]; intros rest min max Hall Hmin Hmax Hstop Hk.
  - simpl in Hmin. assert (min = 0%nat) by lia. subst min.
    simpl append. destruct rest as [|b rest]; simpl; [assumption|].
    destruct Hstop as [Hb | ->].
    + simpl in Hb. now rewrite Hb.
    + simpl. now rewrite andb_false_r.
  - simpl in Hall. apply andb_true_iff in Hall as [Ha Hall].
    assert (Hz : negb (isZero max) = true).
    { destruct max as [[|M]|]; auto. specialize (Hmax 0%nat eq_refl). simpl in Hmax. lia. }
    assert (Hrec : forall min', (min' <= String.length run)%nat ->
              repeatClass ic cs true (run ++ rest) min' (option_map Nat.pred max) c k = Some m).
    { intros min' Hmin'. apply IH; auto.
      - intros M HM. destruct max as [M0|]; [|discriminate].
        simpl in HM. inversion HM; subst. specialize (Hmax M0 eq_refl). simpl in Hmax. lia.
      - destruct Hstop as [Hb | ->]; [now left | right; reflexivity]. }
    simpl. rewrite Ha, Hz. simpl. destruct min as [|min'].
    + rewrite Hrec; [reflexivity | lia].
    + apply Hrec. simpl in Hmin. lia.
Qed.

Lemma rmatch_seq (r1 r2 : regex) (s : string) (c : Captures) (k : Cont) :
  rmatch ic (RSeq r1 r2) s c k =
  rmatch ic r1 s c (fun s' c' => rmatch ic r2 s' c' k).
Proof. reflexivity. Qed.

Lemma rmatch_opt (r : regex) (s : string) (c : Captures) (k : Cont) :
  rmatch ic (ROpt r) s c k =
  match rmatch ic r s c k with
  | Some m => Some m
  | None => k s c
  end.
Proof. reflexivity. Qed.

Lemma rmatch_group (n : nat) (r : regex) (s : string) (c : Captures) (k : Cont) :
  rmatch ic (RGroup n r) s c k =
  rmatch ic r s c (fun s' c' => k s' ((n, consumed s s') :: c')).
Proof. reflexivity. Qed.

Lemma rmatch_rep (cs : list ClassAtom) (min : nat) (max : option nat)
    (greedy : bool) (s : string) (c : Captures) (k : Cont) :
  rmatch ic (RRep cs min max greedy) s c k = repeatClass ic cs greedy s min max c k.
Proof. reflexivity. Qed.

(** A literal matches itself. *)
Lemma charMatches_refl (x : ascii) : charMatches ic x x = true.
Proof. unfold charMatches. apply Ascii.eqb_refl. Qed.

Lemma rmatch_lit (l : string) (s : string) (c : Captures) (k : Cont) :
  rmatch ic (lit l) (l ++ s) c k = k s c.
Proof.
  revert c k. induction l as [|x l IH]; intros c k; [reflexivity|].
  destruct l as [|y l].
  - simpl. now rewrite charMatches_refl.
  - change (lit (String x (String y l))) with (RSeq (RChar x) (lit (String y l))).
    change (String x (String y l) ++ s) with (String x (String y l ++ s)).
    cbn [rmatch]. rewrite charMatches_refl. apply IH.
Qed.

Lemma rmatch_lit_inv (l : string) :
  forall (s : string) (c m : Captures) (k : Cont),
    rmatch ic (lit l) s c k = Some m ->
    exists l' s', s = l' ++ s' /\ sameLetters ic l l' = true /\ k s' c = Some m.
Proof.
  induction l as [|x l IH]; intros s c m k H.
  - exists "", s. auto.
  - destruct l as [|y l].
    + simpl in H. destruct s as [|a s]; [discriminate|].
      destruct (charMatches ic x a) eqn:Hx; [|discriminate].
      exists (String a ""), s. simpl. rewrite Hx. auto.
    + change (lit (String x (String y l))) with (RSeq (RChar x) (lit (String y l))) in H.
      cbn [rmatch] in H. destruct s as [|a s]; [discriminate|].
      destruct (charMatches ic x a) eqn:Hx; [|discriminate].
      destruct (IH _ _ _ _ H) as (l' & s' & -> & Hl & Hk).
      exists (String a l'), s'. split; [reflexivity|]. split; [|assumption].
      change (charMatches ic x a && sameLetters ic (String y l) l' = true).
      now rewrite Hx, Hl.
Qed.

(** Captures only grow along a successful match, and a group on every path
    is bound when the continuation is reached. *)
Lemma rmatch_binds (r : regex) :
  forall (s : string) (c m : Captures) (k : Cont),
    rmatch ic r s c k = Some m ->
    exists s' c',
      k s' c' = Some m /\
      (forall n, capture n c <> None -> capture n c' <> None) /\
      (forall n, binds n r = true -> capture n c' <> None).
Proof.
  induction r as [| p | cs | r1 IH1 r2 IH2 | r1 IH1 r2 IH2 | r1 IH1
                  | cs min max greedy | g r1 IH1 |];
    intros s c m k H; cbn [rmatch] in H.
  - exists s, c. repeat split; auto. discriminate.
  - destruct s as [|x s]; [discriminate|].
    destruct (charMatches ic p x); [|discriminate].
    exists s, c. repeat split; auto. discriminate.
  - destruct s as [|x s]; [discriminate|].
    destruct (inClass ic cs x); [|discriminate].
    exists s, c. repeat split; auto. discriminate.
  - destruct (IH1 _ _ _ _ H) as (s1 & c1 & H1 & Hmono1 & Hb1).
    destruct (IH2 _ _ _ _ H1) as (s2 & c2 & H2 & Hmono2 & Hb2).
    exists s2, c2. repeat split; auto.
    intros n Hn. simpl in Hn. apply orb_true_iff in Hn as [Hn|Hn]; auto.
  - destruct (rmatch ic r1 s c k) eqn:E1.
    + inversion H; subst. destruct (IH1 _ _ _ _ E1) as (s1 & c1 & H1 & Hmono1 & Hb1).
      exists s1, c1. repeat split; auto.
      intros n Hn. simpl in Hn. apply andb_true_iff in Hn as [Hn _]. auto.
    + destruct (IH2 _ _ _ _ H) as (s2 & c2 & H2 & Hmono2 & Hb2).
      exists s2, c2. repeat split; auto.
      intros n Hn. simpl in Hn. apply andb_true_iff in Hn as [_ Hn]. auto.
  - destruct (rmatch ic r1 s c k) eqn:E1.
    + inversion H; subst. destruct (IH1 _ _ _ _ E1) as (s1 & c1 & H1 & Hmono1 & _).
      exists s1, c1. repeat split; auto. discriminate.
    + exists s, c. repeat split; auto. discriminate.
  - destruct (repeatClass_inv _ _ _ _ _ _ _ _ H) as (run & s' & _ & _ & _ & _ & Hk).
    exists s', c. repeat split; auto. discriminate.
  - destruct (IH1 _ _ _ _ H) as (s1 & c1 & H1 & Hmono1 & Hb1).
    exists s1, ((g, consumed s s1) :: c1). split; [assumption|]. split.
    + intros n Hn. simpl. destruct (g =? n)%nat; [discriminate | auto].
    + intros n Hn. simpl in Hn. simpl.
      destruct (g =? n)%nat; [discriminate | auto].
  - destruct s; [|discriminate]. exists "", c. repeat split; auto. discriminate.
Qed.

Lemma matchHere_binds (r : regex) (s : string) (m : Captures) (n : nat) :
  binds n r = true -> matchHere ic r s = Some m -> capture n m <> None.
Proof.
  intros Hb H. unfold matchHere in H.
  destruct (rmatch_binds _ _ _ _ _ H) as (s' & c' & Hk & _ & Hbound).
  inversion Hk; subst. simpl. destruct n; [discriminate|]. simpl. auto.
Qed.

(** [regexMatch] returns the result of [matchHere] at the first suffix of
    the text where it succeeds. *)
Lemma regexMatch_inv (r : regex) (text : string) (m : Captures) :
  regexMatch ic r text = Some m ->
  exists pre s,
    text = pre ++ s /\ matchHere ic r s = Some m /\
    forall p q, pre = p ++ q -> q <> "" -> matchHere ic r (q ++ s) = None.
Proof.
  induction text as [|x text IH]; intros H; simpl in H.
  - destruct (matchHere ic r "") eqn:E; [|discriminate].
    inversion H; subst. exists "", "". repeat split; auto.
    intros p q Hpq Hq. destruct p; destruct q; simpl in Hpq; congruence.
  - destruct (matchHere ic r (String x text)) eqn:E.
    + inversion H; subst. exists "", (String x text). repeat split; auto.
      intros p q Hpq Hq. destruct p; destruct q; simpl in Hpq; congruence.
    + destruct (IH H) as (pre & s & -> & Hm & Hfirst).
      exists (String x pre), s. repeat split; auto.
      intros p q Hpq Hq. destruct p as [|y p].
      * simpl in Hpq. subst q. exact E.
      * simpl in Hpq. inversion Hpq; subst. eapply Hfirst; eauto.
Qed.

Lemma regexMatch_first (r : regex) (pre s : string) (m : Captures) :
  matchHere ic r s = Some m ->
  (forall p q, pre = p ++ q -> q <> "" -> matchHere ic r (q ++ s) = None) ->
  regexMatch ic r (pre ++ s) = Some m.
Proof.
  intros Hm. induction pre as [|x pre IH]; intros Hfirst.
  - simpl append. destruct s; simpl; now rewrite Hm.
  - change (String x pre ++ s) with (String x (pre ++ s)). simpl.
    assert (E : matchHere ic r (String x (pre ++ s)) = None)
      by (apply (Hfirst "" (String x pre) eq_refl); discriminate).
    rewrite E.
    apply IH. intros p q -> Hq. apply (Hfirst (String x p) q); auto.
Qed.


Lemma regexMatch_binds (r : regex) (text : string) (m : Captures) (n : nat) :
  binds n r = true -> regexMatch ic r text = Some m -> capture n m <> None.
Proof.
  intros Hb H. destruct (regexMatch_inv _ _ _ H) as (pre & s & _ & Hm & _).
  eapply matchHere_binds; eauto.
Qed.

End MatcherFacts.

(* ================================================================== *)
(** * Facts about the interpreter                                      *)
(* ================================================================== *)

Section InterpreterFacts.
Context {host : Host}.

Lemma binds_prepositionRe : binds 1 prepositionRe = true.
Proof. reflexivity. Qed.

Lemma binds_sectorRe : binds 1 sectorRe = true.
Proof. reflexivity. Qed.

Lemma binds_districtRe : binds 1 districtRe = true.
Proof. reflexivity. Qed.

Lemma binds_suspectRe : binds 1 suspectRe = true.
Proof. reflexivity. Qed.

Lemma binds_caseIdRe : binds 1 caseIdRe = true.
Proof. reflexivity. Qed.

Lemma binds_dateRe : binds 1 dateRe = true.
Proof. reflexivity. Qed.

(** The value [extractEntities] returns, field by field.  In particular it
    never throws: group 1 takes part in every match of the location and
    suspect patterns. *)
Lemma extractEntities_fields (text : string) :
  exists e,
    extractEntities text = Normal e /\
    crimeType e =
      (let found := filter (fun type => includes type text) CRIME_TYPES in
       if (0 <? List.length found)%nat then Some found else None) /\
    timeRange e = extractTimeRange text /\
    caseId e =
      match regexMatch true caseIdRe text with
      | Some m => capture 1 m
      | None => None
      end /\
    location e =
      match orElse (regexMatch true prepositionRe text)
              (orElse (regexMatch true sectorRe text)
                 (regexMatch true districtRe text)) with
      | Some m => option_map trim (capture 1 m)
      | None => None
      end.
Proof.
  unfold extractEntities.
  set (found := filter (fun type => includes type text) CRIME_TYPES).
  set (lm := orElse (regexMatch true prepositionRe text)
               (orElse (regexMatch true sectorRe text)
                  (regexMatch true districtRe text))).
  assert (Hlm : forall m, lm = Some m -> capture 1 m <> None).
  { intros m. unfold lm, orElse.
    destruct (regexMatch true prepositionRe text) eqn:E1.
    - intros H; inversion H; subst.
      eapply regexMatch_binds; [apply binds_prepositionRe | exact E1].
    - destruct (regexMatch true sectorRe text) eqn:E2.
      + intros H; inversion H; subst.
        eapply regexMatch_binds; [apply binds_sectorRe | exact E2].
      + intros H. eapply regexMatch_binds; [apply binds_districtRe | exact H]. }
  assert (Hsm : forall m, regexMatch true suspectRe text = Some m -> capture 1 m <> None).
  { intros m H. eapply regexMatch_binds; [apply binds_suspectRe | exact H]. }
  destruct lm as [m|];
    [destruct (capture 1 m) as [loc|] eqn:Ec; [|now destruct (Hlm m eq_refl)]|];
    (destruct (regexMatch true suspectRe text) as [ms|];
     [destruct (capture 1 ms) as [sus|] eqn:Es; [|now destruct (Hsm ms eq_refl)]|]);
    destruct (0 <? List.length found)%nat, (extractTimeRange text),
      (regexMatch true caseIdRe text), (0 <? List.length (extractKeywords text))%nat;
    cbv zeta; unfold setCrimeType, setLocation, setTimeRange, setSuspect, setCaseId,
      setKeywords;
    cbn [trimOf bind noEntities crimeType timeRange caseId location suspect keywords];
    (eexists; split; [reflexivity|]);
    cbn [crimeType timeRange caseId location option_map];
    repeat split; reflexivity.
Qed.

Lemma extractEntities_total (text : string) :
  exists e, extractEntities text = Normal e.
Proof.
  destruct (extractEntities_fields text) as (e & He & _). now exists e.
Qed.

Lemma entityCount_le (e : CommandEntities) : (entityCount e <= 6)%nat.
Proof.
  unfold entityCount, present.
  destruct (crimeType e), (location e), (timeRange e), (suspect e), (caseId e),
    (keywords e); simpl; lia.
Qed.

(** The score is one of finitely many sums; each lies in [0, 1]. *)
Lemma calculateConfidence_range (i : CommandIntent) (e : CommandEntities)
    (text : string) :
  (0 <=? calculateConfidence i e text)%float = true /\
  (calculateConfidence i e text <=? 1)%float = true.
Proof.
  unfold calculateConfidence.
  generalize (List.length (splitWhiteSpace text)). intros wordCount.
  pose proof (entityCount_le e) as Hle.
  destruct (isUnknown i), (4 <=? wordCount)%nat, (8 <=? wordCount)%nat;
    destruct (entityCount e) as [|[|[|[|[|[|[|n]]]]]]]; try lia;
    vm_compute; split; reflexivity.
Qed.

(** The shape of every result of [parseVoiceCommand]. *)
Lemma parseVoiceCommand_shape (t : string) :
  exists e,
    extractEntities (normalize t) = Normal e /\
    parseVoiceCommand t =
      Normal
        (let i := determineIntent (normalize t) in
         let conf := calculateConfidence i e (normalize t) in
         mkParsed i e conf t (conf <? 0.7)%float
           (if (conf <? 0.7)%float
            then Some (generateClarificationQuestion i e (normalize t))
            else None)).
Proof.
  destruct (extractEntities_total (normalize t)) as [e He].
  exists e. split; [assumption|].
  unfold parseVoiceCommand. rewrite He. reflexivity.
Qed.

End InterpreterFacts.

(* ================================================================== *)
(** * Facts about code units and lower-cased text                      *)
(* ================================================================== *)

Section CodeUnitFacts.

Lemma lowerChar_lowered (x : ascii) : hasLower (lowerChar x) = false.
Proof. by_cases_on x. Qed.

Lemma lower_upper_lowered (x : ascii) :
  hasLower x = false -> lowerChar (upperChar x) = x.
Proof. by_cases_on x. Qed.

Lemma token_class_lowered (x : ascii) :
  hasLower x = false ->
  inClass true [az; d09; CChar "-"] x = isTokenChar x.
Proof. by_cases_on x. Qed.

Lemma token_not_space (x : ascii) : isTokenChar x = true -> isWhiteSpace x = false.
Proof. by_cases_on x. Qed.

Lemma token_lowered (x : ascii) : isTokenChar x = true -> hasLower x = false.
Proof. by_cases_on x. Qed.

Lemma space_not_token (x : ascii) : isWhiteSpace x = true -> isTokenChar x = false.
Proof. by_cases_on x. Qed.

Lemma space_lowered (x : ascii) : isWhiteSpace x = true -> hasLower x = false.
Proof. by_cases_on x. Qed.

Lemma inClass_space (ic : bool) (x : ascii) : inClass ic [CSpace] x = isWhiteSpace x.
Proof. unfold inClass. simpl. apply orb_false_r. Qed.

Lemma inClass_digit (ic : bool) (x : ascii) : inClass ic [CDigit] x = isDigit x.
Proof. unfold inClass. simpl. apply orb_false_r. Qed.

(** Under the flag [i] a pattern letter and a text letter without a
    lower-case partner match only when they are equal. *)
Lemma charMatches_lowered (p x : ascii) :
  hasLower p = false -> hasLower x = false ->
  charMatches true p x = true -> x = p.
Proof.
  intros Hp Hx H. unfold charMatches, canonicalize in H.
  apply Ascii.eqb_eq in H.
  rewrite <- (lower_upper_lowered x Hx), <- (lower_upper_lowered p Hp).
  now rewrite H.
Qed.

Lemma allChars_ext (p q : ascii -> bool) (s : string) :
  (forall x, p x = q x) -> allChars p s = allChars q s.
Proof.
  intros H. induction s as [|x s IH]; simpl; [reflexivity | now rewrite H, IH].
Qed.

Lemma allChars_impl (p q : ascii -> bool) (s : string) :
  (forall x, p x = true -> q x = true) -> allChars p s = true -> allChars q s = true.
Proof.
  intros H. induction s as [|x s IH]; simpl; [reflexivity|].
  intros Hs. apply andb_true_iff in Hs as [Hx Hs].
  now rewrite (H _ Hx), IH.
Qed.

Lemma sameLetters_lowered (l s : string) :
  lowered l = true -> lowered s = true -> sameLetters true l s = true -> s = l.
Proof.
  revert s. induction l as [|p l IH]; intros [|x s] Hl Hs H; simpl in *;
    try discriminate; [reflexivity|].
  apply andb_true_iff in Hl as [Hp Hl], Hs as [Hx Hs], H as [Hpx H].
  apply negb_true_iff in Hp, Hx.
  rewrite (charMatches_lowered p x Hp Hx Hpx), (IH s Hl Hs H). reflexivity.
Qed.

Lemma lowered_toLowerCase (s : string) : lowered (toLowerCase s) = true.
Proof.
  induction s as [|x s IH]; [reflexivity|].
  unfold lowered in *.
  change (negb (hasLower (lowerChar x)) &&
          allChars (fun x => negb (hasLower x)) (toLowerCase s) = true).
  now rewrite lowerChar_lowered, IH.
Qed.

Lemma allChars_trimStart (p : ascii -> bool) (s : string) :
  allChars p s = true -> allChars p (trimStart s) = true.
Proof.
  induction s as [|x s IH]; [reflexivity|]. intros H. simpl.
  destruct (isWhiteSpace x); [|exact H].
  simpl in H. apply andb_true_iff in H as [_ H]. now apply IH.
Qed.

Lemma allChars_trimEnd (p : ascii -> bool) (s : string) :
  allChars p s = true -> allChars p (trimEnd s) = true.
Proof.
  induction s as [|x s IH]; [reflexivity|]. intros H.
  simpl in H. apply andb_true_iff in H as [Hx H]. specialize (IH H).
  simpl. destruct (trimEnd s) as [|y u].
  - destruct (isWhiteSpace x); [reflexivity|]. simpl. now rewrite Hx.
  - change (p x && allChars p (String y u) = true). now rewrite Hx, IH.
Qed.

Lemma lowered_normalize (t : string) : lowered (normalize t) = true.
Proof.
  unfold normalize, trim, lowered.
  apply allChars_trimEnd, allChars_trimStart, lowered_toLowerCase.
Qed.

(** The longest prefix made of [p]-members is unique. *)
Lemma span_unique (p : ascii -> bool) :
  forall a b a' b' : string,
    a ++ b = a' ++ b' ->
    allChars p a = true -> allChars p a' = true ->
    headIs p b = false -> headIs p b' = false ->
    a = a' /\ b = b'.
Proof.
  induction a as [|x a IH]; intros b [|x' a'] b' E Ha Ha' Hb Hb'; simpl in *.
  - auto.
  - subst b. simpl in Hb. apply andb_true_iff in Ha' as [Hx _]. congruence.
  - subst b'. simpl in Hb'. apply andb_true_iff in Ha as [Hx _]. congruence.
  - inversion E; subst.
    apply andb_true_iff in Ha as [_ Ha], Ha' as [_ Ha'].
    destruct (IH _ _ _ H1 Ha Ha' Hb Hb') as [-> ->]. auto.
Qed.

End CodeUnitFacts.

(* ================================================================== *)
(** * The case-identifier pattern                                      *)
(* ================================================================== *)

Section CaseIdFacts.

Lemma nonempty_length (s : string) : s <> "" -> (1 <= String.length s)%nat.
Proof. destruct s; [congruence | simpl; lia]. Qed.

Lemma allChars_space_class (ws : string) :
  allChars isWhiteSpace ws = true -> allChars (inClass true [CSpace]) ws = true.
Proof.
  intros H. rewrite (allChars_ext _ isWhiteSpace); [exact H|].
  intros x. apply inClass_space.
Qed.

Lemma allChars_token_class (tok : string) :
  allChars isTokenChar tok = true -> allChars (inClass true tokenClass) tok = true.
Proof.
  apply allChars_impl. intros x Hx.
  now rewrite token_class_lowered by now apply token_lowered.
Qed.

Lemma headIs_token_class (rest : string) :
  lowered rest = true -> headIs isTokenChar rest = false ->
  headIs (inClass true tokenClass) rest = false.
Proof.
  destruct rest as [|x rest]; [reflexivity|]. unfold lowered. cbn [headIs allChars].
  intros Hl Hx. apply andb_true_iff in Hl as [Hl _]. apply negb_true_iff in Hl.
  now rewrite token_class_lowered.
Qed.

Lemma headIs_space_class (tok rest : string) :
  tok <> "" -> allChars isTokenChar tok = true ->
  headIs (inClass true [CSpace]) (tok ++ rest) = false.
Proof.
  destruct tok as [|x tok]; [congruence|]. cbn [append headIs allChars]. intros _ H.
  apply andb_true_iff in H as [Hx _].
  rewrite inClass_space. now apply token_not_space.
Qed.

(** The capture group [([a-z0-9-]+)] in front of a token takes all of it. *)
Lemma token_group (tok rest : string) (c m : Captures) (k : Cont) :
  tok <> "" -> allChars isTokenChar tok = true ->
  lowered rest = true -> headIs isTokenChar rest = false ->
  k rest ((1%nat, tok) :: c) = Some m ->
  rmatch true (RGroup 1 (RRep tokenClass 1 None true)) (tok ++ rest) c k = Some m.
Proof.
  intros Hne Htok Hl Hrest Hk. cbn [rmatch].
  apply repeatClass_greedy.
  - now apply allChars_token_class.
  - now apply nonempty_length.
  - discriminate.
  - left. now apply headIs_token_class.
  - cbv beta. now rewrite consumed_append.
Qed.

(** [\s+] in front of a token takes the whole run of white space. *)
Lemma spaces_then_token (ws tok rest : string) (c m : Captures) (k : Cont) :
  ws <> "" -> allChars isWhiteSpace ws = true ->
  tok <> "" -> allChars isTokenChar tok = true ->
  k (tok ++ rest) c = Some m ->
  rmatch true spaces (ws ++ tok ++ rest) c k = Some m.
Proof.
  intros Hws Hsp Hne Htok Hk. unfold spaces. cbn [rmatch].
  apply repeatClass_greedy.
  - now apply allChars_space_class.
  - now apply nonempty_length.
  - discriminate.
  - left. now apply headIs_space_class.
  - exact Hk.
Qed.

(** The optional [(?:id\s+)] leads to no match unless the token is "id" and
    white space and a further token follow it. *)
Lemma optional_id_fails (tok rest : string) (c : Captures) (k : Cont) :
  lowered (tok ++ rest) = true ->
  allChars isTokenChar tok = true -> headIs isTokenChar rest = false ->
  tok <> "id" \/ ~ SpacesThenToken rest ->
  rmatch true (RSeq (lit "id") spaces) (tok ++ rest) c
    (fun s' c' => rmatch true (RGroup 1 (RRep tokenClass 1 None true)) s' c' k) = None.
Proof.
  intros Hl Htok Hrest Hcase.
  match goal with |- ?lhs = None => destruct lhs as [m|] eqn:E end; [exfalso | reflexivity].
  cbn [rmatch] in E.
  apply rmatch_lit_inv in E as (l' & s1 & E1 & Hid & E).
  unfold spaces in E. cbn [rmatch] in E.
  apply repeatClass_inv in E as (run & s2 & -> & Hrun & Hlen & _ & E).
  apply repeatClass_inv in E as (run2 & s3 & -> & Hrun2 & Hlen2 & _ & _).
  rewrite E1 in Hl. unfold lowered in Hl.
  rewrite !allChars_append in Hl.
  apply andb_true_iff in Hl as [Hl1 Hl].
  apply andb_true_iff in Hl as [_ Hl].
  apply andb_true_iff in Hl as [Hl2 _].
  assert (l' = "id") by (apply sameLetters_lowered; auto). subst l'.
  destruct run as [|x run]; [simpl in Hlen; lia|].
  cbn [allChars] in Hrun. apply andb_true_iff in Hrun as [Hx Hrun].
  rewrite inClass_space in Hx.
  destruct (span_unique isTokenChar tok rest "id" (String x run ++ run2 ++ s3))
    as [-> ->]; auto.
  { simpl. now apply space_not_token. }
  destruct Hcase as [Hcase | Hcase]; [congruence|]. apply Hcase.
  destruct run2 as [|y run2]; [simpl in Hlen2; lia|].
  cbn [allChars] in Hrun2, Hl2.
  apply andb_true_iff in Hrun2 as [Hy _], Hl2 as [Hly _].
  apply negb_true_iff in Hly.
  exists (String x run), y, (run2 ++ s3). repeat split.
  - discriminate.
  - cbn [allChars]. rewrite Hx. cbn [andb].
    rewrite (allChars_ext _ (inClass true [CSpace])); [exact Hrun|].
    intros z. symmetry. apply inClass_space.
  - rewrite <- token_class_lowered by assumption. exact Hy.
Qed.

(** A token other than an "id" that introduces a further token is the
    capture. *)
Lemma caseIdRe_here (ws tok rest : string) :
  lowered (tok ++ rest) = true ->
  ws <> "" -> allChars isWhiteSpace ws = true ->
  tok <> "" -> allChars isTokenChar tok = true -> headIs isTokenChar rest = false ->
  tok <> "id" \/ ~ SpacesThenToken rest ->
  exists m,
    matchHere true caseIdRe ("case" ++ ws ++ tok ++ rest) = Some m /\
    capture 1 m = Some tok.
Proof.
  intros Hl Hws Hsp Hne Htok Hrest Hcase.
  eexists. split.
  - unfold matchHere, caseIdRe. rewrite rmatch_seq, rmatch_lit. cbv beta.
    rewrite rmatch_seq. apply spaces_then_token; auto.
    cbv beta. rewrite rmatch_seq, rmatch_opt.
    rewrite optional_id_fails by assumption.
    apply token_group; auto.
    unfold lowered in *. rewrite allChars_append in Hl.
    now apply andb_true_iff in Hl as [_ Hl].
  - reflexivity.
Qed.

(** After "id" and white space the next token is the capture. *)
Lemma caseIdRe_here_id (ws ws2 tok2 rest2 : string) :
  lowered rest2 = true ->
  ws <> "" -> allChars isWhiteSpace ws = true ->
  ws2 <> "" -> allChars isWhiteSpace ws2 = true ->
  tok2 <> "" -> allChars isTokenChar tok2 = true -> headIs isTokenChar rest2 = false ->
  exists m,
    matchHere true caseIdRe ("case" ++ ws ++ "id" ++ ws2 ++ tok2 ++ rest2) = Some m /\
    capture 1 m = Some tok2.
Proof.
  intros Hl Hws Hsp Hws2 Hsp2 Hne Htok Hrest.
  eexists. split.
  - unfold matchHere, caseIdRe. rewrite rmatch_seq, rmatch_lit. cbv beta.
    rewrite rmatch_seq. apply spaces_then_token; auto; [discriminate|].
    cbv beta. rewrite rmatch_seq, rmatch_opt, rmatch_seq, rmatch_lit. cbv beta.
    erewrite spaces_then_token; [reflexivity | auto ..].
    apply token_group; auto.
  - reflexivity.
Qed.

(** A match of the pattern starts with "case", white space and the start
    of a token. *)
Lemma caseIdRe_inv (s : string) (m : Captures) :
  lowered s = true -> matchHere true caseIdRe s = Some m -> CaseThenToken s.
Proof.
  intros Hl H. unfold matchHere, caseIdRe in H.
  rewrite rmatch_seq in H.
  apply rmatch_lit_inv in H as (l' & s1 & -> & Hcase & H).
  rewrite rmatch_seq in H. unfold spaces in H. rewrite rmatch_rep in H.
  apply repeatClass_inv in H as (run & s2 & -> & Hrun & Hlen & _ & H).
  cbv beta in H. rewrite rmatch_seq, rmatch_opt in H.
  unfold lowered in Hl. rewrite !allChars_append in Hl.
  apply andb_true_iff in Hl as [Hl1 Hl].
  apply andb_true_iff in Hl as [_ Hl2].
  assert (l' = "case") by (apply sameLetters_lowered; auto). subst l'.
  exists (run ++ s2). split; [reflexivity|].
  assert (Hhead : headIs isTokenChar s2 = true).
  { match type of H with
    | context [match ?x with Some _ => _ | None => _ end] => destruct x as [m'|] eqn:E
    end.
    - rewrite rmatch_seq in E.
      apply rmatch_lit_inv in E as (l' & s3 & -> & Hid & _).
      rewrite allChars_append in Hl2. apply andb_true_iff in Hl2 as [Hl2 _].
      assert (l' = "id") by (apply sameLetters_lowered; auto). subst l'.
      reflexivity.
    - rewrite rmatch_group, rmatch_rep in H.
      apply repeatClass_inv in H as (run2 & s3 & -> & Hrun2 & Hlen2 & _ & _).
      destruct run2 as [|y run2]; [simpl in Hlen2; lia|].
      cbn [allChars append headIs] in *.
      apply andb_true_iff in Hrun2 as [Hy _], Hl2 as [Hly _].
      apply negb_true_iff in Hly.
      rewrite <- token_class_lowered by assumption. exact Hy. }
  destruct s2 as [|y s2]; [discriminate|]. cbn [headIs] in Hhead.
  exists run, y, s2. repeat split; auto.
  - destruct run; [simpl in Hlen; lia | discriminate].
  - rewrite <- (allChars_ext (inClass true [CSpace])); [exact Hrun|].
    intros z. apply inClass_space.
Qed.

(** The leftmost match of the pattern in lower-cased text is at the first
    "case" that white space follows. *)
Lemma caseIdRe_leftmost (pre s : string) (m : Captures) :
  lowered (pre ++ s) = true ->
  NoneBefore CaseThenToken pre s ->
  matchHere true caseIdRe s = Some m ->
  regexMatch true caseIdRe (pre ++ s) = Some m.
Proof.
  intros Hl Hnone Hm. apply regexMatch_first; [exact Hm|].
  intros p q -> Hq.
  destruct (matchHere true caseIdRe (q ++ s)) as [m'|] eqn:E; [exfalso | reflexivity].
  apply (Hnone p q eq_refl Hq). eapply caseIdRe_inv; [|exact E].
  unfold lowered in *. rewrite append_assoc', allChars_append in Hl.
  now apply andb_true_iff in Hl as [_ Hl].
Qed.

End CaseIdFacts.

Section NoneBeforeFacts.

Lemma NoneBefore_nil (P : string -> Prop) (rest : string) : NoneBefore P "" rest.
Proof.
  intros p q Hpq Hq. destruct p; destruct q; simpl in Hpq; congruence.
Qed.

Lemma NoneBefore_cons (P : string -> Prop) (x : ascii) (pre rest : string) :
  ~ P (String x pre ++ rest) -> NoneBefore P pre rest ->
  NoneBefore P (String x pre) rest.
Proof.
  intros Hx Hpre p q Hpq Hq. destruct p as [|y p].
  - simpl in Hpq. subst q. exact Hx.
  - simpl in Hpq. inversion Hpq; subst. now apply (Hpre p q).
Qed.

Lemma not_CaseThenToken (s : string) : startsWith "case" s = false -> ~ CaseThenToken s.
Proof.
  intros H (r & -> & _). now rewrite startsWith_append in H.
Qed.

End NoneBeforeFacts.

(* ================================================================== *)
(** * Time ranges                                                      *)
(* ================================================================== *)

Section TimeRangeFacts.
Context {host : Host}.








Lemma allChars_digit_class (s : string) :
  allChars (inClass false [CDigit]) s = allChars isDigit s.
Proof. apply allChars_ext. intros x. apply inClass_digit. Qed.



Lemma dateRe_inv (s : string) (res : Captures) :
  matchHere false dateRe s = Some res ->
  exists d rest, s = d ++ rest /\ DateShaped d /\ res = [(0%nat, d); (1%nat, d)].
Proof.
  intros H. unfold matchHere, dateRe in H. rewrite rmatch_group in H.
  set (K := fun (s' : string) (c' : Captures) => _) in H.
  rewrite rmatch_seq in H. cbn [rmatch] in H.
  apply repeatClass_inv in H as (m & s1 & Es & Hm & Hlm1 & Hlm2 & H).
  destruct s1 as [|x s1]; [discriminate|].
  destruct (charMatches false "/" x) eqn:Hx; [|discriminate].
  apply Ascii.eqb_eq in Hx. cbn [canonicalize] in Hx. subst x.
  apply repeatClass_inv in H as (dd & s2 & -> & Hdd & Hldd1 & Hldd2 & H).
  destruct s2 as [|x s2]; [discriminate|].
  destruct (charMatches false "/" x) eqn:Hx; [|discriminate].
  apply Ascii.eqb_eq in Hx. cbn [canonicalize] in Hx. subst x.
  apply repeatClass_inv in H as (y & rest & -> & Hy & Hly1 & Hly2 & H).
  specialize (Hlm2 _ eq_refl). specialize (Hldd2 _ eq_refl). specialize (Hly2 _ eq_refl).
  rewrite allChars_digit_class in Hm, Hdd, Hy.
  assert (E : s = (m ++ "/" ++ dd ++ "/" ++ y) ++ rest).
  { rewrite Es. rewrite !append_assoc'. reflexivity. }
  exists (m ++ "/" ++ dd ++ "/" ++ y), rest. split; [exact E|]. split.
  - exists m, dd, y. repeat split; auto; lia.
  - unfold K in H. rewrite E, consumed_append in H. now inversion H.
Qed.



End TimeRangeFacts.


(* ================================================================== *)
(** * The model on small inputs                                        *)
(* ================================================================== *)

Section Examples.

Example split_empty : splitWhiteSpace "" = [""].
Proof. reflexivity. Qed.

Example split_runs : splitWhiteSpace "show  me all" = ["show"; "me"; "all"].
Proof. reflexivity. Qed.

Example split_leading : splitWhiteSpace " a" = [""; "a"].
Proof. reflexivity. Qed.

Example normalize_example : normalize "  Find Cases near Sector 9 " = "find cases near sector 9".
Proof. reflexivity. Qed.

Example keywords_example :
  extractKeywords "show me the case from yesterday, the case!" = ["case"; "yesterday"].
Proof. reflexivity. Qed.

(** The crime types come in the order of the vocabulary, not of the text. *)
Example vocabulary_order :
  exists p,
    parseVoiceCommand (host := sampleHost) "burglary, then robbery" = Normal p /\
    crimeType (entities p) = Some ["robbery"; "burglary"].
Proof. eexists. split; [vm_compute; reflexivity|]. reflexivity. Qed.

Example DateFromTime_epoch : DateFromTime 0 = 1%Z.
Proof. reflexivity. Qed.

Example DateFromTime_leap_day : DateFromTime 19782 = 29%Z.
Proof. reflexivity. Qed.

Example DateFromTime_before_epoch : DateFromTime (-1) = 31%Z.
Proof. reflexivity. Qed.

(** 2025-11-01 minus a week is 2025-10-25: [setDate] with a day below 1
    rolls into the month before. *)
Example setDate_rolls_back :
  setDate (host := sampleHost) (TimeValue (20393 * msPerDay)) (Some (1 - 7)%Z) =
    TimeValue (20386 * msPerDay) /\
  getDate (host := sampleHost) (TimeValue (20386 * msPerDay)) = Some 25%Z.
Proof. split; reflexivity. Qed.

(** On New York time, a week before 02:30 on 2025-03-16 is a local time the
    clocks skipped; [setDate] gives 07:30Z, which is 03:30 local time. *)
Example setDate_into_skipped_hour :
  setDate (host := newYork2025) (TimeValue (20163 * msPerDay + 23400000))
    (Some (16 - 7)%Z) = TimeValue (20156 * msPerDay + 27000000) /\
  TimeWithinDay (LocalTime (host := newYork2025) (20156 * msPerDay + 27000000)) = 12600000%Z.
Proof. split; reflexivity. Qed.

Example sector_pattern_alone :
  option_map (capture 1) (regexMatch true sectorRe "show sector 12 cases") = Some (Some "12").
Proof. reflexivity. Qed.

Example lazy_group_stops_at_first_space :
  option_map (capture 1) (regexMatch true prepositionRe "cases in new york") = Some (Some "new").
Proof. reflexivity. Qed.

Example date_pattern_leftmost :
  option_map (capture 1) (regexMatch false dateRe "on 112/25/20245") = Some (Some "12/25/2024").
Proof. reflexivity. Qed.

(** Known intent and two entity fields on three words: 0.3 + 0.4 is 0.7 and
    not below it. *)
Example score_at_threshold :
  calculateConfidence location_query
    (mkEntities None (Some "downtown") None None None (Some ["cases"; "within"; "downtown"]))
    "cases within downtown" = 0.7%float.
Proof. reflexivity. Qed.

(** A location can be extracted empty: the preposition pattern captures one
    white-space code unit, which [trim] empties.  The summary leaves such a
    field out. *)
Example empty_location :
  exists p,
    parseVoiceCommand (host := sampleHost) "in   !" = Normal p /\
    location (entities p) = Some "" /\
    formatCommandSummary p = "General search".
Proof. eexists. split; [vm_compute; reflexivity|]. split; reflexivity. Qed.

Example case_id_lowercased :
  exists p,
    parseVoiceCommand (host := sampleHost) "case id CASE-2024-001" = Normal p /\
    caseId (entities p) = Some "case-2024-001".
Proof. eexists. split; [vm_compute; reflexivity|]. reflexivity. Qed.

End Examples.

(* ================================================================== *)
(** * Properties of the interpreter                                    *)
(* ================================================================== *)

(** C1.  For every input string, [parseVoiceCommand] returns normally with a
    confidence in the closed interval [0, 1]; [needsClarification] is the
    outcome of the test [confidence < 0.7]; and [clarificationQuestion] is
    defined exactly when [needsClarification] is true. *)
Theorem parseVoiceCommand_confidence_invariant {host : Host} (t : string) :
  exists p,
    parseVoiceCommand t = Normal p /\
    (0 <=? confidence p)%float = true /\
    (confidence p <=? 1)%float = true /\
    needsClarification p = (confidence p <? 0.7)%float /\
    (clarificationQuestion p <> None <-> needsClarification p = true).
Proof.
  destruct (parseVoiceCommand_shape t) as (e & _ & Hp).
  eexists. split; [exact Hp|]. cbn [confidence needsClarification clarificationQuestion].
  destruct (calculateConfidence_range (determineIntent (normalize t)) e (normalize t))
    as [Hlo Hhi].
  split; [exact Hlo|]. split; [exact Hhi|]. split; [reflexivity|].
  destruct (_ <? 0.7)%float; split; congruence.
Qed.

(** C2, as the specification has it, fails: on this input the parse is not
    a crime-type query that holds the two robbery phrases. *)
Lemma scenario_armed_robberies_not_crime_type :
  ~ (exists p,
       parseVoiceCommand (host := sampleHost)
         "show me all armed robberies this month" = Normal p /\
       intent p = crime_type_query /\
       (exists l, crimeType (entities p) = Some l /\
                  In "armed robbery" l /\ In "robbery" l) /\
       (exists tr, timeRange (entities p) = Some tr /\ relative tr = Some "this month") /\
       (0.7 <=? confidence p)%float = true /\
       needsClarification p = false).
Proof.
  intros (p & Hp & Hi & _).
  vm_compute in Hp. inversion Hp; subst. discriminate.
Qed.

(** C2 (amended).  On "show me all armed robberies this month" the intent
    is [temporal_query] and no crime type is extracted, since the plural
    "robberies" contains no phrase of the vocabulary; the time range is the
    relative one labelled "this month", the confidence is at least 0.7 and no
    clarification is needed. *)
Theorem scenario_armed_robberies_this_month {host : Host} :
  exists p,
    parseVoiceCommand "show me all armed robberies this month" = Normal p /\
    intent p = temporal_query /\
    crimeType (entities p) = None /\
    (exists tr, timeRange (entities p) = Some tr /\ relative tr = Some "this month") /\
    (0.7 <=? confidence p)%float = true /\
    needsClarification p = false.
Proof.
  eexists. split; [cbv -[setDate getDate newDate]; reflexivity|].
  cbn [intent entities crimeType timeRange confidence needsClarification].
  repeat split. eexists. split; reflexivity.
Qed.

(** C3, as the specification has it, fails: on this input the location is
    not "9". *)
Lemma scenario_near_sector_9_location_not_9 :
  ~ (exists p,
       parseVoiceCommand (host := sampleHost)
         "find cases near sector 9 from last week" = Normal p /\
       intent p = location_query /\
       location (entities p) = Some "9" /\
       (exists tr, timeRange (entities p) = Some tr /\ relative tr = Some "last week")).
Proof.
  intros (p & Hp & _ & Hl & _).
  vm_compute in Hp. inversion Hp; subst. discriminate.
Qed.

(** C3 (amended).  On "find cases near sector 9 from last week" the intent
    is [location_query] and the time range is the relative one labelled
    "last week"; the location is "sector", the capture of the preposition
    pattern at "near", which is tried before the "sector <digits>" pattern
    (that pattern alone would capture "9"). *)
Theorem scenario_near_sector_9 {host : Host} :
  exists p,
    parseVoiceCommand "find cases near sector 9 from last week" = Normal p /\
    intent p = location_query /\
    location (entities p) = Some "sector" /\
    (exists m, regexMatch true prepositionRe "find cases near sector 9 from last week" = Some m /\
               capture 1 m = Some "sector") /\
    (exists m, regexMatch true sectorRe "find cases near sector 9 from last week" = Some m /\
               capture 1 m = Some "9") /\
    (exists tr, timeRange (entities p) = Some tr /\ relative tr = Some "last week").
Proof.
  eexists. split; [cbv -[setDate getDate newDate]; reflexivity|].
  cbn [intent entities location timeRange].
  repeat split.
  - eexists. split; [vm_compute; reflexivity | reflexivity].
  - eexists. split; [vm_compute; reflexivity | reflexivity].
  - eexists. split; reflexivity.
Qed.

(** C4.  For every input the crime types are the phrases of the 13-phrase
    vocabulary that occur in the normalized text, in vocabulary order, and
    the field is absent when there is none; nothing is merged, so a text
    containing "armed robbery" yields "armed robbery" and "robbery" as two
    entries. *)
Theorem crimeType_is_vocabulary_filter {host : Host} (t : string) :
  exists p,
    parseVoiceCommand t = Normal p /\
    let found := filter (fun type => includes type (normalize t)) CRIME_TYPES in
    crimeType (entities p) = match found with [] => None | _ => Some found end /\
    (forall type, In type found <-> In type CRIME_TYPES /\ Substring type (normalize t)) /\
    (Substring "armed robbery" (normalize t) ->
     exists rest,
       crimeType (entities p) = Some ("armed robbery" :: "robbery" :: rest)) /\
    List.length CRIME_TYPES = 13%nat.
Proof.
  destruct (parseVoiceCommand_shape t) as (e & He & Hp).
  destruct (extractEntities_fields (normalize t)) as (e' & He' & Hcrime & _).
  rewrite He in He'. inversion He'; subst e'. clear He'.
  eexists. split; [exact Hp|]. cbn [entities]. cbv zeta.
  split; [|split; [|split]].
  - rewrite Hcrime. cbv zeta.
    destruct (filter _ CRIME_TYPES); reflexivity.
  - intros type. rewrite filter_In, includes_iff. reflexivity.
  - intros Harmed.
    assert (H1 : includes "armed robbery" (normalize t) = true)
      by now apply includes_iff.
    assert (H2 : includes "robbery" (normalize t) = true).
    { apply includes_iff. destruct Harmed as (pre & post & ->).
      exists (pre ++ "armed "), post. rewrite append_assoc'. reflexivity. }
    rewrite Hcrime. cbn [CRIME_TYPES filter]. rewrite H1, H2.
    cbn [List.length Nat.ltb Nat.leb]. eauto.
  - reflexivity.
Qed.

Lemma crimeType_is_vocabulary_filter_witness :
  exists p rest,
    parseVoiceCommand (host := sampleHost) "Armed Robbery downtown" = Normal p /\
    crimeType (entities p) = Some ("armed robbery" :: "robbery" :: rest).
Proof.
  destruct (crimeType_is_vocabulary_filter (host := sampleHost) "Armed Robbery downtown")
    as (p & Hp & _ & _ & Harmed & _).
  destruct Harmed as [rest Hrest].
  - exists "", " downtown". reflexivity.
  - exists p, rest. split; assumption.
Defined.




(** C6, as the specification has it, fails: on this input no clarification
    fires. *)
Lemma scenario_robbery_and_burglary_no_clarification :
  ~ (exists p,
       parseVoiceCommand (host := sampleHost)
         "show robbery and burglary cases" = Normal p /\
       crimeType (entities p) = Some ["robbery"; "burglary"] /\
       needsClarification p = true /\
       clarificationQuestion p =
         Some "I detected multiple crime types: robbery, burglary. Which one would you like to search for?").
Proof.
  intros (p & Hp & _ & Hn & _).
  vm_compute in Hp. inversion Hp; subst. discriminate.
Qed.

(** C6 (amended).  On "show robbery and burglary cases" the crime types are
    "robbery" and "burglary", in vocabulary order, but no clarification
    fires: the confidence is at least 0.7, [needsClarification] is false
    and [clarificationQuestion] is undefined.  The multiple-crime-types
    question listing the two types joined by ", " is what the clarifier
    returns for this intent and these entities when it is called. *)
Theorem scenario_robbery_and_burglary {host : Host} :
  exists p,
    parseVoiceCommand "show robbery and burglary cases" = Normal p /\
    crimeType (entities p) = Some ["robbery"; "burglary"] /\
    (0.7 <=? confidence p)%float = true /\
    needsClarification p = false /\
    clarificationQuestion p = None /\
    generateClarificationQuestion (intent p) (entities p)
        (normalize "show robbery and burglary cases") =
      "I detected multiple crime types: robbery, burglary. Which one would you like to search for?".
Proof.
  eexists. split; [cbv -[setDate getDate newDate]; reflexivity|].
  cbn [intent entities crimeType confidence needsClarification clarificationQuestion].
  repeat split.
Qed.

(** C7.  [parseVoiceCommand] returns normally on every input string, and
    on the empty string the result has intent [unknown], no entity field,
    confidence 0, [needsClarification] true and the "didn't understand"
    question. *)
Theorem parseVoiceCommand_total_and_empty {host : Host} :
  (forall t : string, exists p, parseVoiceCommand t = Normal p) /\
  parseVoiceCommand "" =
    Normal (mkParsed unknown noEntities 0%float "" true
      (Some "I didn't quite understand that. Could you please rephrase your query?")).
Proof.
  split.
  - intros t. destruct (parseVoiceCommand_shape t) as (e & _ & Hp). eauto.
  - vm_compute. reflexivity.
Qed.

(** C8, as the specification has it, fails: "cases within downtown" has no
    other cue than the "in " inside "within ", and yet it holds a location
    cue and is a location query. *)
Lemma within_downtown_is_location_query :
  includes "near " "cases within downtown" = false /\
  includes "at " "cases within downtown" = false /\
  includes "around " "cases within downtown" = false /\
  includes "sector" "cases within downtown" = false /\
  includes "district" "cases within downtown" = false /\
  normalize "cases within downtown" = "cases within downtown" /\
  ~ (containsLocation "cases within downtown" = false) /\
  ~ (determineIntent "cases within downtown" <> location_query).
Proof.
  repeat split; try (vm_compute; reflexivity).
  - vm_compute. discriminate.
  - vm_compute. intros H. now apply H.
Qed.

(** C8 (amended).  The word "within" followed by a space does trigger the
    location cue, because the cue "in " is searched as a plain substring:
    every text containing "within " holds a location cue, and it is
    classified [location_query] whenever no earlier rule of the cascade
    (search verb, filter word, temporal keyword) applies, as for
    "cases within downtown". *)
Theorem within_triggers_location_cue (text : string) :
  includes "within " text = true ->
  containsLocation text = true /\
  (includes "show" text || includes "find" text ||
   includes "search" text || includes "get" text = false ->
   includes "filter" text || includes "narrow" text || includes "matching" text = false ->
   containsTimeReference text = false ->
   determineIntent text = location_query).
Proof.
  intros H. apply includes_within_in in H.
  assert (Hloc : containsLocation text = true).
  { unfold containsLocation. rewrite H. reflexivity. }
  split; [exact Hloc|].
  intros Hverb Hfilter Htime. unfold determineIntent.
  now rewrite Hverb, Hfilter, Htime, Hloc.
Qed.

Lemma within_triggers_location_cue_witness :
  containsLocation "cases within downtown" = true /\
  determineIntent "cases within downtown" = location_query.
Proof.
  destruct (within_triggers_location_cue "cases within downtown" eq_refl) as [Hloc Hint].
  split; [exact Hloc|]. apply Hint; reflexivity.
Defined.

(** C9, as the specification has it, fails: the command parsed from
    "in   !" holds a location, the empty string, which the confidence score
    counts as an entity field; the summary is "General search" and not the
    labelled location. *)
Lemma formatCommandSummary_drops_empty_location :
  let p := mkParsed location_query
             (mkEntities None (Some "") None None None None)
             0.5%float "in   !" true
             (Some "Could you please specify more details, such as crime type, location, or time period?") in
  parseVoiceCommand (host := sampleHost) "in   !" = Normal p /\
  entityCount (entities p) = 1%nat /\
  formatCommandSummary p = "General search" /\
  summaryOf (entities p) = "Location: " /\
  ~ (formatCommandSummary p = summaryOf (entities p)).
Proof.
  cbv zeta. split; [vm_compute; reflexivity|].
  split; [reflexivity|]. split; [reflexivity|]. split; [reflexivity|].
  vm_compute. discriminate.
Qed.

(** C9 (amended).  [formatCommandSummary] is a total function.  It joins
    with " | ", in the order crime types, location, relative label of the
    time range, suspect, case id, the labelled fields that are present with
    a non-empty value (a non-empty list of crime types, a non-empty string),
    leaving out the absent and the empty ones, and returns "General search"
    when none of the five is present with a non-empty value, whatever the
    keywords.  On a command whose present fields all hold something these
    are exactly the present fields. *)
Theorem formatCommandSummary_spec (p : ParsedCommand) :
  formatCommandSummary p = summaryOf (dropEmpty (entities p)) /\
  (everyFieldFilled (entities p) -> formatCommandSummary p = summaryOf (entities p)) /\
  (crimeType (entities p) = None -> location (entities p) = None ->
   relativeLabel (entities p) = None -> suspect (entities p) = None ->
   caseId (entities p) = None -> formatCommandSummary p = "General search").
Proof.
  assert (Hgen : formatCommandSummary p = summaryOf (dropEmpty (entities p))).
  { destruct p as [i [ct loc tr sus cid kw] conf raw nc cq].
    unfold formatCommandSummary, summaryOf, summaryFields, relativeLabel, dropEmpty.
    cbn [entities crimeType location timeRange suspect caseId keywords].
    destruct ct as [[|c0 ct]|], loc as [[|l0 loc]|], tr as [[st en [[|r0 rl]|]]|],
      sus as [[|s0 sus]|], cid as [[|i0 cid]|]; reflexivity. }
  split; [exact Hgen|]. split.
  - intros (Hct & Hloc & Hrel & Hsus & Hcid). rewrite Hgen. f_equal.
    destruct p as [i [ct loc tr sus cid kw] conf raw nc cq].
    unfold dropEmpty, filled, relativeLabel in *.
    cbn [entities crimeType location timeRange suspect caseId keywords] in *.
    destruct ct as [[|c0 ct]|], loc as [[|l0 loc]|], tr as [[st en [[|r0 rl]|]]|],
      sus as [[|s0 sus]|], cid as [[|i0 cid]|];
      cbn [relative] in Hrel; try congruence; reflexivity.
  - intros Hct Hloc Hrel Hsus Hcid. rewrite Hgen.
    destruct p as [i [ct loc tr sus cid kw] conf raw nc cq].
    unfold relativeLabel in Hrel.
    cbn [entities crimeType location timeRange suspect caseId keywords] in *.
    subst ct loc sus cid. destruct tr as [[st en rl]|]; [cbn in Hrel; subst rl|]; reflexivity.
Qed.

Lemma formatCommandSummary_spec_witness :
  formatCommandSummary
    (mkParsed crime_type_query
       (mkEntities (Some ["robbery"; "burglary"]) (Some "downtown")
          (Some (mkTimeRange None None (Some "last week"))) None (Some "c-12")
          (Some ["cases"]))
       0.9%float "Robbery and burglary cases" false None) =
  "Crime: robbery, burglary | Location: downtown | Time: last week | Case ID: c-12".
Proof.
  destruct (formatCommandSummary_spec
    (mkParsed crime_type_query
       (mkEntities (Some ["robbery"; "burglary"]) (Some "downtown")
          (Some (mkTimeRange None None (Some "last week"))) None (Some "c-12")
          (Some ["cases"]))
       0.9%float "Robbery and burglary cases" false None)) as (_ & Hvalid & _).
  rewrite Hvalid; [reflexivity|].
  unfold everyFieldFilled, filled. simpl. repeat split; discriminate.
Defined.

(** C10.  When the normalized text holds the word "case", then white space
    and then a token of letters, digits and hyphens, at the first place
    where "case" is followed by white space and a token, [parseVoiceCommand] fills
    [caseId] with that token, which is lower-case as the whole normalized
    text is, whether or not it is an identifier; when the token is "id" and
    white space and a further token follow, the "id" is skipped and the
    further token is taken. *)
Theorem caseId_is_the_token_after_case {host : Host} (t pre ws tok rest : string) :
  normalize t = pre ++ "case" ++ ws ++ tok ++ rest ->
  NoneBefore CaseThenToken pre ("case" ++ ws ++ tok ++ rest) ->
  ws <> "" -> allChars isWhiteSpace ws = true ->
  tok <> "" -> allChars isTokenChar tok = true ->
  headIs isTokenChar rest = false ->
  exists p,
    parseVoiceCommand t = Normal p /\
    lowered tok = true /\
    (tok <> "id" \/ ~ SpacesThenToken rest -> caseId (entities p) = Some tok) /\
    (forall ws2 tok2 rest2,
        tok = "id" -> rest = ws2 ++ tok2 ++ rest2 ->
        ws2 <> "" -> allChars isWhiteSpace ws2 = true ->
        tok2 <> "" -> allChars isTokenChar tok2 = true ->
        headIs isTokenChar rest2 = false ->
        caseId (entities p) = Some tok2).
Proof.
  intros Hn Hnone Hws Hsp Hne Htok Hrest.
  destruct (parseVoiceCommand_shape t) as (e & He & Hp).
  destruct (extractEntities_fields (normalize t)) as (e' & He' & _ & _ & Hcase & _).
  rewrite He in He'. inversion He'; subst e'. clear He'.
  pose proof (lowered_normalize t) as Hl. rewrite Hn in Hl.
  assert (Hl' : lowered (tok ++ rest) = true).
  { unfold lowered in *. rewrite !allChars_append in Hl. rewrite allChars_append.
    apply andb_true_iff in Hl as [_ Hl]. apply andb_true_iff in Hl as [_ Hl].
    now apply andb_true_iff in Hl as [_ Hl]. }
  eexists. split; [exact Hp|]. cbn [entities]. split; [|split].
  - unfold lowered in *. rewrite allChars_append in Hl'.
    now apply andb_true_iff in Hl' as [Ht _].
  - intros Hc.
    destruct (caseIdRe_here ws tok rest) as (m & Hm & Hcap); auto.
    rewrite Hcase, Hn, (caseIdRe_leftmost pre _ m); auto.
  - intros ws2 tok2 rest2 -> -> Hws2 Hsp2 Hne2 Htok2 Hrest2.
    destruct (caseIdRe_here_id ws ws2 tok2 rest2) as (m & Hm & Hcap); auto.
    { unfold lowered in *. rewrite !allChars_append in Hl'.
      apply andb_true_iff in Hl' as [_ Hl']. apply andb_true_iff in Hl' as [_ Hl'].
      now apply andb_true_iff in Hl' as [_ Hl']. }
    rewrite Hcase, Hn, (caseIdRe_leftmost pre _ m); auto.
Qed.

Lemma caseId_is_the_token_after_case_witness :
  exists p,
    parseVoiceCommand (host := sampleHost) "show me the case from yesterday" = Normal p /\
    caseId (entities p) = Some "from".
Proof.
  destruct (caseId_is_the_token_after_case (host := sampleHost)
              "show me the case from yesterday" "show me the " " " "from" " yesterday")
    as (p & Hp & _ & Hcase & _).
  - reflexivity.
  - repeat (apply NoneBefore_cons; [apply not_CaseThenToken; reflexivity|]).
    apply NoneBefore_nil.
  - discriminate.
  - reflexivity.
  - discriminate.
  - reflexivity.
  - reflexivity.
  - exists p. split; [exact Hp|]. apply Hcase. left. discriminate.
Defined.

(* ================================================================== *)
(** * Further properties of the interpreter                            *)
(* ================================================================== *)

Import Center More.

Section ScoreFacts.

(** The threshold test on each of the finitely many scores. *)
Lemma calculateConfidence_table (i : CommandIntent) (e : CommandEntities) (text : string) :
  (calculateConfidence i e text <? 0.7)%float =
    clarifies (negb (isUnknown i)) (entityCount e) (List.length (splitWhiteSpace text)) /\
  (calculateConfidence i e text <? 1)%float = true.
Proof.
  unfold calculateConfidence, clarifies.
  generalize (List.length (splitWhiteSpace text)). intros words.
  pose proof (entityCount_le e) as Hle.
  assert (Hw : (words < 4 \/ (4 <= words < 8) \/ 8 <= words)%nat) by lia.
  destruct (isUnknown i);
    destruct (entityCount e) as [|[|[|[|[|[|[|n]]]]]]]; try lia;
    destruct Hw as [Hw | [Hw | Hw]];
    repeat match goal with
    | |- context [(?a <=? words)%nat] =>
        let E := fresh in
        destruct (Nat.leb_spec a words) as [E|E]; try lia
    end;
    vm_compute; split; reflexivity.
Qed.

End ScoreFacts.

Section EntityFacts.
Context {host : Host}.

(** The two fields of the entities that [extractEntities_fields] leaves
    out. *)
Lemma extractEntities_more (text : string) :
  exists e,
    extractEntities text = Normal e /\
    suspect e =
      match regexMatch true suspectRe text with
      | Some m => option_map trim (capture 1 m)
      | None => None
      end /\
    keywords e =
      (if (0 <? List.length (extractKeywords text))%nat
       then Some (extractKeywords text) else None).
Proof.
  unfold extractEntities.
  set (found := filter (fun type => includes type text) CRIME_TYPES).
  set (lm := orElse (regexMatch true prepositionRe text)
               (orElse (regexMatch true sectorRe text)
                  (regexMatch true districtRe text))).
  assert (Hlm : forall m, lm = Some m -> capture 1 m <> None).
  { intros m. unfold lm, orElse.
    destruct (regexMatch true prepositionRe text) eqn:E1.
    - intros H; inversion H; subst.
      eapply regexMatch_binds; [apply binds_prepositionRe | exact E1].
    - destruct (regexMatch true sectorRe text) eqn:E2.
      + intros H; inversion H; subst.
        eapply regexMatch_binds; [apply binds_sectorRe | exact E2].
      + intros H. eapply regexMatch_binds; [apply binds_districtRe | exact H]. }
  assert (Hsm : forall m, regexMatch true suspectRe text = Some m -> capture 1 m <> None).
  { intros m H. eapply regexMatch_binds; [apply binds_suspectRe | exact H]. }
  destruct lm as [m|];
    [destruct (capture 1 m) as [loc|] eqn:Ec; [|now destruct (Hlm m eq_refl)]|];
    (destruct (regexMatch true suspectRe text) as [ms|];
     [destruct (capture 1 ms) as [sus|] eqn:Es; [|now destruct (Hsm ms eq_refl)]|]);
    destruct (0 <? List.length found)%nat, (extractTimeRange text),
      (regexMatch true caseIdRe text), (0 <? List.length (extractKeywords text))%nat;
    cbv zeta; unfold setCrimeType, setLocation, setTimeRange, setSuspect, setCaseId,
      setKeywords;
    cbn [trimOf bind noEntities crimeType timeRange caseId location suspect keywords];
    (eexists; split; [reflexivity|]);
    cbn [suspect keywords option_map];
    repeat split; reflexivity.
Qed.

(** Both descriptions speak of the same entities. *)
Lemma extractEntities_all (text : string) (e : CommandEntities) :
  extractEntities text = Normal e ->
  crimeType e =
    (let found := filter (fun type => includes type text) CRIME_TYPES in
     if (0 <? List.length found)%nat then Some found else None) /\
  timeRange e = extractTimeRange text /\
  caseId e =
    match regexMatch true caseIdRe text with
    | Some m => capture 1 m
    | None => None
    end /\
  location e =
    match orElse (regexMatch true prepositionRe text)
            (orElse (regexMatch true sectorRe text)
               (regexMatch true districtRe text)) with
    | Some m => option_map trim (capture 1 m)
    | None => None
    end /\
  suspect e =
    match regexMatch true suspectRe text with
    | Some m => option_map trim (capture 1 m)
    | None => None
    end /\
  keywords e =
    (if (0 <? List.length (extractKeywords text))%nat
     then Some (extractKeywords text) else None).
Proof.
  intros He.
  destruct (extractEntities_fields text) as (e1 & He1 & H1 & H2 & H3 & H4).
  destruct (extractEntities_more text) as (e2 & He2 & H5 & H6).
  rewrite He in He1, He2. inversion He1; inversion He2; subst.
  repeat split; assumption.
Qed.

(** What [parseVoiceCommand] returns, read backwards. *)
Lemma parseVoiceCommand_inv (t : string) (p : ParsedCommand) :
  parseVoiceCommand t = Normal p ->
  extractEntities (normalize t) = Normal (entities p) /\
  intent p = determineIntent (normalize t) /\
  confidence p = calculateConfidence (intent p) (entities p) (normalize t) /\
  rawText p = t /\
  needsClarification p = (confidence p <? 0.7)%float /\
  clarificationQuestion p =
    (if (confidence p <? 0.7)%float
     then Some (generateClarificationQuestion (intent p) (entities p) (normalize t))
     else None).
Proof.
  intros H. destruct (parseVoiceCommand_shape t) as (e & He & Hp).
  rewrite H in Hp. inversion Hp; subst p. cbn. repeat split; auto.
Qed.

End EntityFacts.

(* ================================================================== *)
(** * Keywords                                                         *)
(* ================================================================== *)

Section KeywordFacts.

Lemma mapChars_append (f : ascii -> ascii) (a b : string) :
  mapChars f (a ++ b) = mapChars f a ++ mapChars f b.
Proof. induction a as [|x a IH]; simpl; [reflexivity | now rewrite IH]. Qed.

Lemma filterChars_append (p : ascii -> bool) (a b : string) :
  filterChars p (a ++ b) = filterChars p a ++ filterChars p b.
Proof.
  induction a as [|x a IH]; simpl; [reflexivity|].
  destruct (p x); simpl; now rewrite IH.
Qed.

Lemma allChars_filterChars (p : ascii -> bool) (s : string) :
  allChars p (filterChars p s) = true.
Proof.
  induction s as [|x s IH]; simpl; [reflexivity|].
  destruct (p x) eqn:E; [simpl; now rewrite E, IH | exact IH].
Qed.

Lemma alnum_kept (x : ascii) :
  isLowerAlnum x = true -> inClass false [az; d09] (lowerChar x) = true /\ lowerChar x = x.
Proof. by_cases_on x; split; reflexivity. Qed.

Lemma kept_is_alnum (x : ascii) : inClass false [az; d09] x = isLowerAlnum x.
Proof. by_cases_on x. Qed.

Lemma alnum_not_space (x : ascii) : isLowerAlnum x = true -> isWhiteSpace x = false.
Proof. by_cases_on x. Qed.

Lemma alnum_lowered (x : ascii) : isLowerAlnum x = true -> hasLower x = false.
Proof. by_cases_on x. Qed.

Lemma digit_alnum (x : ascii) : isDigit x = true -> isLowerAlnum x = true.
Proof. by_cases_on x. Qed.

(** [cleanWord] leaves a run of lower-case letters and digits as it is. *)
Lemma cleanWord_fixes (w : string) :
  allChars isLowerAlnum w = true -> cleanWord w = w.
Proof.
  unfold cleanWord, toLowerCase. induction w as [|x w IH]; [reflexivity|].
  cbn [allChars mapChars filterChars]. intros H.
  apply andb_true_iff in H as [Hx Hw].
  destruct (alnum_kept x Hx) as [Hk Hl]. rewrite Hk, Hl, (IH Hw). reflexivity.
Qed.

Lemma cleanWord_append (a b : string) : cleanWord (a ++ b) = cleanWord a ++ cleanWord b.
Proof.
  unfold cleanWord, toLowerCase. now rewrite mapChars_append, filterChars_append.
Qed.

Lemma cleanWord_substring (w tok : string) :
  allChars isLowerAlnum w = true -> Substring w tok -> Substring w (cleanWord tok).
Proof.
  intros Hw (a & b & ->). exists (cleanWord a), (cleanWord b).
  now rewrite !cleanWord_append, (cleanWord_fixes w Hw).
Qed.

Lemma cleanWord_alnum (tok : string) : allChars isLowerAlnum (cleanWord tok) = true.
Proof.
  unfold cleanWord.
  rewrite <- (allChars_ext (inClass false [az; d09])) by apply kept_is_alnum.
  apply allChars_filterChars.
Qed.

Lemma Substring_length (w s : string) :
  Substring w s -> (String.length w <= String.length s)%nat.
Proof. intros (a & b & ->). rewrite !length_append'. lia. Qed.

Lemma Substring_cons (w : string) (x : ascii) (s : string) :
  Substring w s -> Substring w (String x s).
Proof. intros (a & b & ->). now exists (String x a), b. Qed.

Lemma Substring_trans (u v s : string) : Substring u v -> Substring v s -> Substring u s.
Proof.
  intros (a & b & ->) (c & d & ->). exists (c ++ a), (b ++ d).
  now rewrite !append_assoc'.
Qed.

Lemma revOnto_substring (w : string) (cur : list ascii) :
  forall acc, Substring w acc -> Substring w (revOnto cur acc).
Proof.
  induction cur as [|c cur IH]; intros acc H; simpl; [exact H|].
  apply IH. now apply Substring_cons.
Qed.

(** Once inside a word, [splitAux] emits first the word it is reading, with
    what was read before and what follows up to the next white space. *)
Lemma splitAux_reading (w post : string) :
  forall cur,
    allChars (fun x => negb (isWhiteSpace x)) w = true ->
    exists t l, splitAux (w ++ post) cur false = revOnto cur (w ++ t) :: l.
Proof.
  induction w as [|x w IH]; intros cur Hw.
  - clear Hw. simpl append. revert cur.
    induction post as [|c post IHp]; intros cur.
    + exists "", []. reflexivity.
    + simpl. destruct (isWhiteSpace c).
      * exists "", (splitAux post [] true). reflexivity.
      * destruct (IHp (c :: cur)) as (t & l & E). exists (String c t), l. exact E.
  - cbn [allChars] in Hw. apply andb_true_iff in Hw as [Hx Hw].
    apply negb_true_iff in Hx.
    destruct (IH (x :: cur) Hw) as (t & l & E).
    exists t, l. cbn [append splitAux]. rewrite Hx. exact E.
Qed.

(** A word without white space lies inside one of the pieces of the split. *)
Lemma splitAux_has_token (w post : string) :
  w <> "" -> allChars (fun x => negb (isWhiteSpace x)) w = true ->
  forall pre cur inSep,
    exists tok, In tok (splitAux (pre ++ w ++ post) cur inSep) /\ Substring w tok.
Proof.
  intros Hne Hw. induction pre as [|c pre IH]; intros cur inSep.
  - destruct w as [|x w]; [congruence|].
    cbn [allChars] in Hw. apply andb_true_iff in Hw as [Hx Hw].
    apply negb_true_iff in Hx.
    destruct (splitAux_reading w post (x :: cur) Hw) as (t & l & E).
    cbn [append splitAux]. rewrite Hx, E.
    exists (revOnto (x :: cur) (w ++ t)). split; [now left|].
    apply (revOnto_substring (String x w) cur (String x (w ++ t))).
    exists "", t. reflexivity.
  - cbn [append splitAux]. destruct (isWhiteSpace c).
    + destruct (IH [] true) as (tok & Hin & Hsub).
      destruct inSep; exists tok; split; auto. now right.
    + apply IH.
Qed.

Lemma uniq_nonempty (l seen : list string) (x : string) :
  In x l -> ~ In x seen -> uniq seen l <> [].
Proof.
  revert seen. induction l as [|y l IH]; intros seen Hin Hseen; [destruct Hin|].
  simpl. destruct (existsb (String.eqb y) seen) eqn:E; [|discriminate].
  destruct Hin as [->|Hin].
  - exfalso. apply existsb_exists in E as (z & Hz & Hyz).
    apply String.eqb_eq in Hyz. subst z. now apply Hseen.
  - now apply IH.
Qed.

(** A word that yields a keyword does so wherever it occurs. *)
Lemma keywords_from_word (text w : string) :
  yieldsKeyword w = true -> Substring w text -> extractKeywords text <> [].
Proof.
  unfold yieldsKeyword. intros Hy Hsub.
  apply andb_true_iff in Hy as [Hy Hstop]. apply andb_true_iff in Hy as [Halnum Hlen].
  apply Nat.ltb_lt in Hlen.
  assert (Hne : w <> "") by (destruct w; [simpl in Hlen; lia | discriminate]).
  assert (Hnows : allChars (fun x => negb (isWhiteSpace x)) w = true).
  { revert Halnum. apply allChars_impl. intros x Hx.
    now rewrite (alnum_not_space x Hx). }
  destruct Hsub as (pre & post & ->).
  destruct (splitAux_has_token w post Hne Hnows pre [] false) as (tok & Hin & Htok).
  pose proof (cleanWord_substring w tok Halnum Htok) as Hclean.
  unfold extractKeywords, splitWhiteSpace.
  apply (uniq_nonempty _ [] (cleanWord tok)); [|intros []].
  apply filter_In. split; [now apply in_map|].
  apply andb_true_iff. split.
  - apply Nat.ltb_lt. apply Substring_length in Hclean. lia.
  - apply negb_true_iff. apply not_true_is_false. intros Hex.
    apply existsb_exists in Hex as (stop & Hstopin & Heq).
    apply String.eqb_eq in Heq. subst stop.
    rewrite forallb_forall in Hstop. specialize (Hstop _ Hstopin).
    apply negb_true_iff in Hstop. apply includes_false_iff in Hstop. now apply Hstop.
Qed.

(** The first word of every crime type and of every temporal keyword yields
    a keyword. *)
Lemma vocabulary_first_words :
  forallb (fun phrase => yieldsKeyword (firstWord phrase) &&
                         startsWith (firstWord phrase) phrase)
    (CRIME_TYPES ++ map fst TEMPORAL_KEYWORDS)%list = true.
Proof. vm_compute. reflexivity. Qed.

Lemma keywords_from_phrase (text phrase : string) :
  In phrase (CRIME_TYPES ++ map fst TEMPORAL_KEYWORDS)%list ->
  includes phrase text = true -> extractKeywords text <> [].
Proof.
  intros Hin Hinc.
  pose proof vocabulary_first_words as Hv. rewrite forallb_forall in Hv.
  specialize (Hv _ Hin). apply andb_true_iff in Hv as [Hy Hs].
  apply (keywords_from_word text (firstWord phrase) Hy).
  apply startsWith_inv in Hs as [r Hr].
  apply includes_iff in Hinc. eapply Substring_trans; [|exact Hinc].
  exists "", r. exact Hr.
Qed.

Lemma stopWords_no_digit :
  forallb (allChars (fun x => negb (isDigit x))) stopWords = true.
Proof. vm_compute. reflexivity. Qed.

(** Four digits yield a keyword. *)
Lemma year_yieldsKeyword (y : string) :
  allChars isDigit y = true -> String.length y = 4%nat -> yieldsKeyword y = true.
Proof.
  intros Hy Hlen. unfold yieldsKeyword. rewrite Hlen.
  rewrite (allChars_impl isDigit isLowerAlnum y digit_alnum Hy). cbn [andb Nat.ltb Nat.leb].
  apply forallb_forall. intros stop Hstop. apply negb_true_iff.
  apply includes_false_iff. intros (a & b & E).
  pose proof stopWords_no_digit as Hnd. rewrite forallb_forall in Hnd.
  specialize (Hnd _ Hstop). rewrite E, !allChars_append in Hnd.
  apply andb_true_iff in Hnd as [_ Hnd]. apply andb_true_iff in Hnd as [Hnd _].
  destruct y as [|d y]; [discriminate|]. cbn [allChars] in Hy, Hnd.
  apply andb_true_iff in Hy as [Hd _], Hnd as [Hn _].
  rewrite Hd in Hn. discriminate.
Qed.

End KeywordFacts.

Section AccompanyFacts.
Context {host : Host}.

Lemma scanKeywords_some (entries : list (string * Window)) (text : string) (tr : TimeRange) :
  scanKeywords entries text = Some tr ->
  exists keyword value,
    In (keyword, value) entries /\ includes keyword text = true /\
    tr = relativeWindow keyword value.
Proof.
  induction entries as [|[kw w] entries IH]; simpl; [discriminate|].
  destruct (includes kw text) eqn:E.
  - intros H. inversion H. exists kw, w. auto.
  - intros H. destruct (IH H) as (kw' & w' & Hin & Hinc & Htr).
    exists kw', w'. auto.
Qed.

Lemma scanKeywords_iff (text : string) :
  containsTimeReference text = true <->
  exists tr, scanKeywords TEMPORAL_KEYWORDS text = Some tr.
Proof.
  unfold containsTimeReference. generalize TEMPORAL_KEYWORDS. intros entries.
  induction entries as [|[kw w] entries IH]; simpl.
  - split; [discriminate | intros [tr H]; discriminate].
  - destruct (includes kw text); simpl; [split; eauto | exact IH].
Qed.

Lemma found_iff (text : string) :
  containsCrimeType text = true <->
  filter (fun type => includes type text) CRIME_TYPES <> [].
Proof.
  unfold containsCrimeType. generalize CRIME_TYPES. intros l.
  induction l as [|ty l IH]; simpl.
  - split; [discriminate | congruence].
  - destruct (includes ty text); simpl; [split; [discriminate | reflexivity] | exact IH].
Qed.

Lemma timeRange_keywords (text : string) (tr : TimeRange) :
  extractTimeRange text = Some tr -> extractKeywords text <> [].
Proof.
  unfold extractTimeRange.
  destruct (scanKeywords TEMPORAL_KEYWORDS text) as [tr0|] eqn:Es.
  - intros _. apply scanKeywords_some in Es as (kw & w & Hin & Hinc & _).
    apply (keywords_from_phrase text kw); [|exact Hinc].
    apply in_or_app. right. change kw with (fst (kw, w)). now apply in_map.
  - destruct (regexMatch false dateRe text) as [m|] eqn:Em; [|discriminate].
    intros _. apply regexMatch_inv in Em as (pre & s & -> & Hm & _).
    apply dateRe_inv in Hm as (d & rest & -> & Hd & _).
    destruct Hd as (mm & dd & y & -> & _ & _ & _ & _ & Hy & Hlen).
    apply (keywords_from_word _ y (year_yieldsKeyword y Hy Hlen)).
    exists (pre ++ mm ++ "/" ++ dd ++ "/"), rest.
    rewrite !append_assoc'. reflexivity.
Qed.

Lemma crimeType_keywords (text : string) :
  filter (fun type => includes type text) CRIME_TYPES <> [] ->
  extractKeywords text <> [].
Proof.
  intros H. destruct (filter _ CRIME_TYPES) as [|ty l] eqn:E; [congruence|].
  assert (Hin : In ty (filter (fun type => includes type text) CRIME_TYPES))
    by (rewrite E; now left).
  apply filter_In in Hin as [Hin Hinc].
  apply (keywords_from_phrase text ty); [|exact Hinc].
  apply in_or_app. now left.
Qed.

Lemma nonempty_ltb {A : Type} (l : list A) : l <> [] -> (0 <? List.length l)%nat = true.
Proof. destruct l; [congruence | reflexivity]. Qed.

End AccompanyFacts.

Section Extras.
Context {host : Host}.

(** Whenever a crime type or a time range is extracted, keywords are
    extracted as well, so at least two entity fields are present. *)
Lemma two_fields_with_crime_or_time (text : string) (e : CommandEntities) :
  extractEntities text = Normal e ->
  crimeType e <> None \/ timeRange e <> None ->
  keywords e <> None /\ (2 <= entityCount e)%nat.
Proof.
  intros He Hsome.
  destruct (extractEntities_all text e He) as (Hc & Ht & _ & _ & _ & Hk).
  assert (Hkw : extractKeywords text <> []).
  { destruct Hsome as [H|H].
    - apply crimeType_keywords. rewrite Hc in H. cbv zeta in H.
      destruct (filter _ CRIME_TYPES); [simpl in H; congruence | discriminate].
    - rewrite Ht in H. destruct (extractTimeRange text) as [tr|] eqn:E; [|congruence].
      eapply timeRange_keywords; eauto. }
  rewrite (nonempty_ltb _ Hkw) in Hk.
  split; [rewrite Hk; discriminate|].
  unfold entityCount, present. rewrite Hk.
  destruct Hsome as [H|H].
  - destruct (crimeType e); [|congruence].
    destruct (location e), (timeRange e), (suspect e), (caseId e); simpl; lia.
  - destruct (timeRange e); [|congruence].
    destruct (crimeType e), (location e), (suspect e), (caseId e); simpl; lia.
Qed.

End Extras.



Section Extras2.
Context {host : Host}.

Lemma crimeType_present_iff (text : string) (e : CommandEntities) :
  extractEntities text = Normal e ->
  (crimeType e <> None <-> containsCrimeType text = true).
Proof.
  intros He. destruct (extractEntities_all text e He) as (Hc & _).
  rewrite Hc, found_iff. cbv zeta.
  destruct (filter _ CRIME_TYPES); simpl; split; congruence.
Qed.

Lemma relative_present_iff (text : string) (e : CommandEntities) :
  extractEntities text = Normal e ->
  (relativeLabel e <> None <-> containsTimeReference text = true).
Proof.
  intros He. destruct (extractEntities_all text e He) as (_ & Ht & _).
  unfold relativeLabel. rewrite Ht, scanKeywords_iff. unfold extractTimeRange.
  destruct (scanKeywords TEMPORAL_KEYWORDS text) as [tr|] eqn:Es.
  - apply scanKeywords_some in Es as (kw & w & _ & _ & ->).
    cbn [relative relativeWindow]. split; [eauto | discriminate].
  - destruct (regexMatch false dateRe text); cbn [relative];
      (split; [congruence | intros [tr H]; discriminate]).
Qed.

(** The classifier and the extractor agree: a [crime_type_query] always
    carries crime types, a [temporal_query] always carries a time range with
    a relative label, and a [search_cases] carries neither crime types nor a
    relative label. *)
Lemma agreement_of_intent (t : string) (p : ParsedCommand) :
  parseVoiceCommand t = Normal p ->
  (intent p = crime_type_query -> crimeType (entities p) <> None) /\
  (intent p = temporal_query -> relativeLabel (entities p) <> None) /\
  (intent p = search_cases ->
   crimeType (entities p) = None /\ relativeLabel (entities p) = None).
Proof.
  intros Hp. destruct (parseVoiceCommand_inv t p Hp) as (He & Hi & _).
  pose proof (crimeType_present_iff _ _ He) as Hc.
  pose proof (relative_present_iff _ _ He) as Hr.
  rewrite Hi. unfold determineIntent.
  destruct (containsCrimeType (normalize t)) eqn:Ec,
           (containsTimeReference (normalize t)) eqn:Et,
           (containsLocation (normalize t)),
           (includes "show" (normalize t) || includes "find" (normalize t) ||
            includes "search" (normalize t) || includes "get" (normalize t)),
           (includes "filter" (normalize t) || includes "narrow" (normalize t) ||
            includes "matching" (normalize t)),
           (includes "suspect" (normalize t) || includes "perpetrator" (normalize t));
    cbn [orb andb]; (split; [|split]); intros Hint; try discriminate Hint;
    try (apply Hc; reflexivity); try (apply Hr; reflexivity);
    (split;
     [destruct (crimeType (entities p));
        [exfalso; assert (H : false = true) by (apply Hc; discriminate); discriminate
        | reflexivity]
     | destruct (relativeLabel (entities p));
        [exfalso; assert (H : false = true) by (apply Hr; discriminate); discriminate
        | reflexivity]]).
Qed.

(** The threshold test as a table: a parsed command needs no
    clarification exactly when the intent is known and two entity fields are
    present, or the intent is known, one field is present and the text has
    four words, or the intent is unknown, two fields are present and the text
    has eight words. *)
Lemma needsClarification_as_table (t : string) (p : ParsedCommand) :
  parseVoiceCommand t = Normal p ->
  needsClarification p =
    clarifies (negb (isUnknown (intent p))) (entityCount (entities p)) (wordCountOf t).
Proof.
  intros Hp. destruct (parseVoiceCommand_inv t p Hp) as (_ & _ & Hc & _ & Hn & _).
  rewrite Hn, Hc. apply calculateConfidence_table.
Qed.

(** A command with a known intent and a crime type or a time range
    never needs clarification; in particular no [crime_type_query] and no
    [temporal_query] does. *)
Lemma clear_with_crime_or_time (t : string) (p : ParsedCommand) :
  parseVoiceCommand t = Normal p ->
  (intent p <> unknown ->
   crimeType (entities p) <> None \/ timeRange (entities p) <> None ->
   needsClarification p = false /\ clarificationQuestion p = None) /\
  (intent p = crime_type_query \/ intent p = temporal_query ->
   needsClarification p = false /\ clarificationQuestion p = None).
Proof.
  intros Hp.
  assert (Hmain : intent p <> unknown ->
    crimeType (entities p) <> None \/ timeRange (entities p) <> None ->
    needsClarification p = false /\ clarificationQuestion p = None).
  { intros Hknown Hsome.
    pose proof (needsClarification_as_table t p Hp) as Htab.
    destruct (parseVoiceCommand_inv t p Hp) as (He & _ & _ & _ & Hn & Hq).
    destruct (two_fields_with_crime_or_time _ _ He Hsome) as [_ Htwo].
    assert (Hn' : needsClarification p = false).
    { rewrite Htab. unfold clarifies.
      destruct (intent p); try congruence; cbn [isUnknown negb andb orb];
        apply Nat.leb_le in Htwo; rewrite Htwo; reflexivity. }
    split; [exact Hn'|]. rewrite Hq, <- Hn, Hn'. reflexivity. }
  split; [exact Hmain|].
  destruct (agreement_of_intent t p Hp) as (Hcrime & Htime & _).
  intros [Hi|Hi]; apply Hmain; try (rewrite Hi; discriminate).
  - left. auto.
  - right. specialize (Htime Hi). unfold relativeLabel in Htime.
    destruct (timeRange (entities p)); congruence.
Qed.

(** Of the six questions of the clarifier only three are ever asked:
    the question for an unknown intent, the request for more details and
    the question for a time period.  The questions about several crime
    types, about the location, and the closing one are never returned by
    [parseVoiceCommand]. *)
Lemma question_among_three (t : string) (p : ParsedCommand)
    (q : string) :
  parseVoiceCommand t = Normal p ->
  clarificationQuestion p = Some q ->
  q = questionUnknown \/ q = questionDetails \/ q = questionTime.
Proof.
  intros Hp Hq.
  destruct (clear_with_crime_or_time t p Hp) as [Hclear _].
  destruct (parseVoiceCommand_inv t p Hp) as (_ & _ & _ & _ & _ & Hquestion).
  destruct (confidence p <? 0.7)%float; [|rewrite Hquestion in Hq; discriminate].
  rewrite Hquestion in Hq. inversion Hq as [Hgen]. clear Hq.
  unfold generateClarificationQuestion.
  destruct (isUnknown (intent p)) eqn:Hu; [now left|].
  assert (Hknown : intent p <> unknown) by (intros E; rewrite E in Hu; discriminate).
  assert (Hnone : crimeType (entities p) <> None \/ timeRange (entities p) <> None ->
                  False).
  { intros Hsome. destruct (Hclear Hknown Hsome) as [_ Hnone].
    rewrite Hquestion in Hnone. discriminate. }
  destruct (crimeType (entities p)); [exfalso; apply Hnone; left; discriminate|].
  destruct (timeRange (entities p)); [exfalso; apply Hnone; right; discriminate|].
  cbn [isNone andb].
  destruct (truthy (location (entities p))); cbn [negb andb]; auto.
Qed.

End Extras2.

Section KeywordInvariants.

Lemma uniq_In (l seen : list string) (x : string) :
  In x (uniq seen l) <-> In x l /\ ~ In x seen.
Proof.
  revert seen. induction l as [|y l IH]; intros seen; simpl.
  - tauto.
  - destruct (existsb (String.eqb y) seen) eqn:E.
    + rewrite IH. apply existsb_exists in E as (z & Hz & Hyz).
      apply String.eqb_eq in Hyz. subst z.
      split; [tauto|]. intros [[->|H] Hn]; tauto.
    + assert (Hy : ~ In y seen).
      { intros H. apply not_true_iff_false in E. apply E.
        apply existsb_exists. exists y. split; [exact H | apply String.eqb_refl]. }
      simpl. rewrite IH. simpl.
      destruct (string_dec y x) as [->|Hne]; [tauto|]. tauto.
Qed.

Lemma uniq_NoDup (l seen : list string) : NoDup (uniq seen l).
Proof.
  revert seen. induction l as [|y l IH]; intros seen; simpl; [constructor|].
  destruct (existsb (String.eqb y) seen); [apply IH|].
  constructor; [|apply IH].
  rewrite uniq_In. simpl. tauto.
Qed.

(** The keywords have no repetition, and a string is a keyword exactly
    when it is the cleaned form of a white-space separated piece of the text,
    is longer than two and is no stop word; every keyword consists of
    lower-case letters and digits. *)
Lemma keywords_characterised (text : string) :
  NoDup (extractKeywords text) /\
  (forall k,
      In k (extractKeywords text) <->
      (exists piece, In piece (splitWhiteSpace text) /\ k = cleanWord piece) /\
      (2 < String.length k)%nat /\ ~ In k stopWords) /\
  (forall k, In k (extractKeywords text) -> allChars isLowerAlnum k = true).
Proof.
  assert (Hiff : forall k,
      In k (extractKeywords text) <->
      (exists piece, In piece (splitWhiteSpace text) /\ k = cleanWord piece) /\
      (2 < String.length k)%nat /\ ~ In k stopWords).
  { intros k. unfold extractKeywords. rewrite uniq_In, filter_In, in_map_iff.
    rewrite andb_true_iff, Nat.ltb_lt, negb_true_iff.
    split.
    - intros [[[piece [Hp Hin]] [Hlen Hstop]] _]. split; [exists piece; auto|].
      split; [exact Hlen|]. intros Hk.
      apply not_true_iff_false in Hstop. apply Hstop.
      apply existsb_exists. exists k. split; [exact Hk | apply String.eqb_refl].
    - intros [[piece [Hin Hp]] [Hlen Hstop]]. split; [|intros []].
      split; [exists piece; auto|]. split; [exact Hlen|].
      apply not_true_iff_false. intros Hex.
      apply existsb_exists in Hex as (stop & Hs & Heq).
      apply String.eqb_eq in Heq. subst stop. now apply Hstop. }
  split; [apply uniq_NoDup|]. split; [exact Hiff|].
  intros k Hk. apply Hiff in Hk as [[piece [_ ->]] _]. apply cleanWord_alnum.
Qed.

End KeywordInvariants.



(* ================================================================== *)
(** * Normalization                                                    *)
(* ================================================================== *)

Section NormalizeFacts.

Lemma lowerChar_idem (x : ascii) : lowerChar (lowerChar x) = lowerChar x.
Proof. by_cases_on x. Qed.

Lemma lowerChar_space (x : ascii) : isWhiteSpace (lowerChar x) = isWhiteSpace x.
Proof. by_cases_on x. Qed.

Lemma toLowerCase_idem (s : string) : toLowerCase (toLowerCase s) = toLowerCase s.
Proof.
  unfold toLowerCase. induction s as [|x s IH]; simpl; [reflexivity|].
  now rewrite lowerChar_idem, IH.
Qed.

Lemma trimStart_lower (s : string) :
  trimStart (toLowerCase s) = toLowerCase (trimStart s).
Proof.
  unfold toLowerCase. induction s as [|x s IH]; simpl; [reflexivity|].
  rewrite lowerChar_space. destruct (isWhiteSpace x); [exact IH | reflexivity].
Qed.

Lemma trimEnd_lower (s : string) :
  trimEnd (toLowerCase s) = toLowerCase (trimEnd s).
Proof.
  unfold toLowerCase. induction s as [|x s IH]; [reflexivity|].
  cbn [mapChars trimEnd]. rewrite IH, lowerChar_space.
  destruct (trimEnd s); cbn [mapChars]; [destruct (isWhiteSpace x)|]; reflexivity.
Qed.

Lemma trim_lower (s : string) : trim (toLowerCase s) = toLowerCase (trim s).
Proof. unfold trim. now rewrite trimStart_lower, trimEnd_lower. Qed.

Lemma trimStart_head (s : string) : headIs isWhiteSpace (trimStart s) = false.
Proof.
  induction s as [|x s IH]; [reflexivity|]. simpl.
  destruct (isWhiteSpace x) eqn:E; [exact IH | simpl; exact E].
Qed.

Lemma trimStart_fixes (s : string) : headIs isWhiteSpace s = false -> trimStart s = s.
Proof. destruct s as [|x s]; [reflexivity|]. simpl. now intros ->. Qed.

Lemma trimEnd_head (s : string) :
  headIs isWhiteSpace s = false -> headIs isWhiteSpace (trimEnd s) = false.
Proof.
  destruct s as [|x s]; [reflexivity|]. cbn [headIs trimEnd]. intros Hx.
  destruct (trimEnd s); [rewrite Hx|]; simpl; auto.
Qed.

Lemma trimEnd_idem (s : string) : trimEnd (trimEnd s) = trimEnd s.
Proof.
  induction s as [|x s IH]; [reflexivity|]. cbn [trimEnd].
  destruct (trimEnd s) as [|y u] eqn:E.
  - destruct (isWhiteSpace x) eqn:Ex; [reflexivity|]. cbn [trimEnd]. now rewrite Ex.
  - cbn [trimEnd]. cbn [trimEnd] in IH. rewrite IH. reflexivity.
Qed.

Lemma trim_idem (s : string) : trim (trim s) = trim s.
Proof.
  unfold trim.
  rewrite (trimStart_fixes (trimEnd (trimStart s)))
    by (apply trimEnd_head, trimStart_head).
  apply trimEnd_idem.
Qed.

Lemma trimStart_spaces (pre s : string) :
  allChars isWhiteSpace pre = true -> trimStart (pre ++ s) = trimStart s.
Proof.
  induction pre as [|x pre IH]; [reflexivity|]. simpl. intros H.
  apply andb_true_iff in H as [Hx H]. rewrite Hx. now apply IH.
Qed.

Lemma trimEnd_spaces (s post : string) :
  allChars isWhiteSpace post = true -> trimEnd (s ++ post) = trimEnd s.
Proof.
  intros H. induction s as [|x s IH].
  - simpl append. induction post as [|y post IHp]; [reflexivity|].
    cbn [allChars] in H. apply andb_true_iff in H as [Hy H].
    cbn [trimEnd]. rewrite (IHp H), Hy. reflexivity.
  - cbn [append trimEnd]. now rewrite IH.
Qed.

Lemma trim_spaces (pre s post : string) :
  allChars isWhiteSpace pre = true -> allChars isWhiteSpace post = true ->
  trim (pre ++ s ++ post) = trim s.
Proof.
  intros Hpre Hpost. unfold trim. rewrite (trimStart_spaces pre _ Hpre).
  assert (E : trimStart (s ++ post) = trimStart s ++ post \/
              (trimStart (s ++ post) = "" /\ trimStart s = "")).
  { induction s as [|x s IH].
    - right. split; [|reflexivity]. simpl append.
      rewrite <- (append_empty_r post). rewrite (trimStart_spaces post "" Hpost).
      reflexivity.
    - cbn [append trimStart]. destruct (isWhiteSpace x); [exact IH | now left]. }
  destruct E as [E | [E1 E2]].
  - rewrite E. now apply trimEnd_spaces.
  - now rewrite E1, E2.
Qed.

End NormalizeFacts.

Section Extras3.
Context {host : Host}.

End Extras3.



(* ================================================================== *)
(** * The shape of the captured fields                                 *)
(* ================================================================== *)

Section ShapeFacts.

(** A successful lazy repetition stopped at the first length, from the
    minimum on, at which the continuation succeeds. *)
Lemma repeatClass_lazy_inv (ic : bool) (cs : list ClassAtom) (k : Cont) (c m : Captures) :
  forall (s : string) (min : nat) (max : option nat),
    repeatClass ic cs false s min max c k = Some m ->
    exists run s',
      s = run ++ s' /\
      allChars (inClass ic cs) run = true /\
      (min <= String.length run)%nat /\
      k s' c = Some m /\
      (forall r1 r2, run = r1 ++ r2 -> r2 <> "" -> (min <= String.length r1)%nat ->
                     k (r2 ++ s') c = None).
Proof.
  induction s as [|a s IH]; intros min max H.
  - destruct min; simpl in H; [|discriminate].
    exists "", "". repeat split; auto.
    intros r1 r2 E Hr2. destruct r1; destruct r2; simpl in E; congruence.
  - assert (Hstop : k (String a s) c = Some m -> min = 0%nat ->
              exists run s', String a s = run ++ s' /\
                allChars (inClass ic cs) run = true /\
                (min <= String.length run)%nat /\ k s' c = Some m /\
                (forall r1 r2, run = r1 ++ r2 -> r2 <> "" ->
                   (min <= String.length r1)%nat -> k (r2 ++ s') c = None)).
    { intros Hk ->. exists "", (String a s). repeat split; auto.
      intros r1 r2 E Hr2. destruct r1; destruct r2; simpl in E; congruence. }
    assert (Hmore : forall min',
              inClass ic cs a && negb (isZero max) = true ->
              repeatClass ic cs false s min' (option_map Nat.pred max) c k = Some m ->
              (min = S min' \/ (min = 0%nat /\ min' = 0%nat /\ k (String a s) c = None)) ->
              exists run s', String a s = run ++ s' /\
                allChars (inClass ic cs) run = true /\
                (min <= String.length run)%nat /\ k s' c = Some m /\
                (forall r1 r2, run = r1 ++ r2 -> r2 <> "" ->
                   (min <= String.length r1)%nat -> k (r2 ++ s') c = None)).
    { intros min' Hc Hr Hmin.
      apply andb_true_iff in Hc as [Ha _].
      destruct (IH _ _ Hr) as (run & s' & -> & Hall & Hlen & Hk & Hfirst).
      exists (String a run), s'. cbn [allChars]. rewrite Ha, Hall.
      repeat split; auto.
      - simpl. destruct Hmin as [-> | (-> & _)]; lia.
      - intros r1 r2 E Hr2 Hl. destruct r1 as [|b r1].
        + simpl in E. subst r2.
          destruct Hmin as [-> | (_ & _ & Hnone)]; [simpl in Hl; lia | exact Hnone].
        + simpl in E. inversion E; subst. apply (Hfirst r1 r2); auto.
          destruct Hmin as [-> | (_ & -> & _)]; simpl in Hl; lia. }
    simpl in H. destruct min as [|min'].
    + destruct (inClass ic cs a && negb (isZero max)) eqn:Hc.
      * destruct (k (String a s) c) eqn:Hk.
        -- inversion H; subst. now apply Hstop.
        -- eapply Hmore; eauto.
      * now apply Hstop.
    + destruct (inClass ic cs a && negb (isZero max)) eqn:Hc; [|discriminate].
      eapply Hmore; eauto.
Qed.

Lemma allChars_of_suffix_heads (p : ascii -> bool) (run : string) :
  (forall r1 r2, run = r1 ++ r2 -> r2 <> "" -> headIs p r2 = true) ->
  allChars p run = true.
Proof.
  induction run as [|y run IH]; intros H; [reflexivity|].
  cbn [allChars].
  assert (Hy : p y = true) by (apply (H "" (String y run) eq_refl); discriminate).
  rewrite Hy. apply IH. intros r1 r2 -> Hr2. apply (H (String y r1) r2); auto.
Qed.

(** The lazy group in front of [(?:\s|$)]: the capture is what the group
    consumed, and only its first code unit can be white space. *)
Lemma lazy_group_inv (cs : list ClassAtom) (s S0 : string) (c m : Captures) :
  rmatch true (RSeq (RGroup 1 (RRep cs 1 None false)) spaceOrEnd) s c
    (fun s' c' => Some ((0%nat, consumed S0 s') :: c')) = Some m ->
  exists x run rest,
    s = String x run ++ rest /\
    allChars (inClass true cs) (String x run) = true /\
    allChars (fun y => negb (isWhiteSpace y)) run = true /\
    capture 1 m = Some (String x run).
Proof.
  intros H. rewrite rmatch_seq, rmatch_group, rmatch_rep in H.
  apply repeatClass_lazy_inv in H as (run0 & rest & -> & Hall & Hlen & Hk & Hfirst).
  destruct run0 as [|x run]; [simpl in Hlen; lia|].
  exists x, run, rest. split; [reflexivity|]. split; [exact Hall|]. split.
  - apply allChars_of_suffix_heads. intros r1 r2 -> Hr2.
    specialize (Hfirst (String x r1) r2 eq_refl Hr2).
    cbn [String.length] in Hfirst. specialize (Hfirst ltac:(lia)).
    destruct r2 as [|y r2]; [congruence|]. cbn [headIs].
    destruct (isWhiteSpace y) eqn:Ey; [exfalso | reflexivity].
    unfold spaceOrEnd in Hfirst. cbn [rmatch append] in Hfirst.
    rewrite inClass_space, Ey in Hfirst. discriminate.
  - rewrite consumed_append in Hk. unfold spaceOrEnd in Hk. cbn [rmatch] in Hk.
    destruct rest as [|y rest].
    + inversion Hk. reflexivity.
    + destruct (inClass true [CSpace] y); inversion Hk; reflexivity.
Qed.

Lemma trimEnd_no_space (s : string) :
  allChars (fun y => negb (isWhiteSpace y)) s = true -> trimEnd s = s.
Proof.
  induction s as [|x s IH]; [reflexivity|]. cbn [allChars trimEnd]. intros H.
  apply andb_true_iff in H as [Hx H]. apply negb_true_iff in Hx.
  rewrite (IH H). destruct s; [now rewrite Hx | reflexivity].
Qed.

(** Trimming such a capture leaves the part without white space. *)
Lemma trim_lazy_capture (x : ascii) (run : string) :
  allChars (fun y => negb (isWhiteSpace y)) run = true ->
  trim (String x run) = if isWhiteSpace x then run else String x run.
Proof.
  intros H. unfold trim. cbn [trimStart]. destruct (isWhiteSpace x) eqn:Ex.
  - rewrite trimStart_fixes; [now apply trimEnd_no_space|].
    destruct run as [|y run]; [reflexivity|]. cbn [allChars headIs] in *.
    apply andb_true_iff in H as [Hy _]. now apply negb_true_iff in Hy.
  - apply trimEnd_no_space. cbn [allChars]. now rewrite Ex, H.
Qed.

Lemma letter_class_lowered (x : ascii) :
  hasLower x = false -> isWhiteSpace x = false ->
  inClass true [az; CSpace] x = isLowerLetter x.
Proof. by_cases_on x. Qed.

Lemma alnum_class_lowered (x : ascii) :
  hasLower x = false ->
  inClass true [az; d09; CSpace] x = isLowerAlnum x || isWhiteSpace x.
Proof. by_cases_on x. Qed.

Lemma allChars_and (p q r : ascii -> bool) (s : string) :
  (forall x, p x = true -> q x = true -> r x = true) ->
  allChars p s = true -> allChars q s = true -> allChars r s = true.
Proof.
  intros H. induction s as [|x s IH]; [reflexivity|]. cbn [allChars].
  intros Hp Hq. apply andb_true_iff in Hp as [Hpx Hp], Hq as [Hqx Hq].
  now rewrite (H x Hpx Hqx), (IH Hp Hq).
Qed.

Lemma allChars_take (p : ascii -> bool) (n : nat) (s : string) :
  allChars p s = true -> allChars p (take n s) = true.
Proof.
  revert n. induction s as [|x s IH]; intros [|n] H; try reflexivity.
  cbn [allChars take] in *. apply andb_true_iff in H as [Hx H].
  now rewrite Hx, IH.
Qed.

Lemma allChars_suffix (p : ascii -> bool) (a b : string) :
  allChars p (a ++ b) = true -> allChars p b = true.
Proof. rewrite allChars_append. intros H. now apply andb_true_iff in H as [_ H]. Qed.

Lemma allChars_prefix (p : ascii -> bool) (a b : string) :
  allChars p (a ++ b) = true -> allChars p a = true.
Proof. rewrite allChars_append. intros H. now apply andb_true_iff in H as [H _]. Qed.

End ShapeFacts.

Section CaptureFacts.

(** A successful match hands a suffix of its input to the continuation, and
    the captures untouched when the regex has no group. *)
Lemma rmatch_consumes (ic : bool) (r : regex) :
  forall (s : string) (c m : Captures) (k : Cont),
    rmatch ic r s c k = Some m ->
    exists u s' c',
      s = u ++ s' /\ k s' c' = Some m /\ (groupless r = true -> c' = c).
Proof.
  induction r as [| p | cs | r1 IH1 r2 IH2 | r1 IH1 r2 IH2 | r1 IH1
                  | cs min max greedy | g r1 IH1 |];
    intros s c m k H; cbn [rmatch] in H.
  - exists "", s, c. auto.
  - destruct s as [|x s]; [discriminate|].
    destruct (charMatches ic p x); [|discriminate].
    exists (String x ""), s, c. auto.
  - destruct s as [|x s]; [discriminate|].
    destruct (inClass ic cs x); [|discriminate].
    exists (String x ""), s, c. auto.
  - destruct (IH1 _ _ _ _ H) as (u1 & s1 & c1 & -> & H1 & Hc1).
    destruct (IH2 _ _ _ _ H1) as (u2 & s2 & c2 & -> & H2 & Hc2).
    exists (u1 ++ u2), s2, c2. split; [now rewrite append_assoc'|].
    split; [exact H2|]. cbn [groupless]. intros Hg.
    apply andb_true_iff in Hg as [Hg1 Hg2]. now rewrite (Hc2 Hg2), (Hc1 Hg1).
  - cbn [groupless]. destruct (rmatch ic r1 s c k) eqn:E1.
    + inversion H; subst. destruct (IH1 _ _ _ _ E1) as (u & s' & c' & -> & H1 & Hc).
      exists u, s', c'. repeat split; auto.
      intros Hg. apply andb_true_iff in Hg as [Hg _]. auto.
    + destruct (IH2 _ _ _ _ H) as (u & s' & c' & -> & H2 & Hc).
      exists u, s', c'. repeat split; auto.
      intros Hg. apply andb_true_iff in Hg as [_ Hg]. auto.
  - cbn [groupless]. destruct (rmatch ic r1 s c k) eqn:E1.
    + inversion H; subst. destruct (IH1 _ _ _ _ E1) as (u & s' & c' & -> & H1 & Hc).
      exists u, s', c'. auto.
    + exists "", s, c. auto.
  - apply repeatClass_inv in H as (run & s' & -> & _ & _ & _ & Hk).
    exists run, s', c. auto.
  - destruct (IH1 _ _ _ _ H) as (u & s' & c' & -> & H1 & _).
    exists u, s', ((g, consumed (u ++ s') s') :: c'). repeat split; auto.
    cbn [groupless]. discriminate.
  - destruct s; [|discriminate]. exists "", "", c. auto.
Qed.

(** A groupless prefix in front of a regex. *)
Lemma rmatch_prefix (ic : bool) (r1 r2 : regex) (s : string) (c m : Captures) (k : Cont) :
  groupless r1 = true ->
  rmatch ic (RSeq r1 r2) s c k = Some m ->
  exists u s', s = u ++ s' /\ rmatch ic r2 s' c k = Some m.
Proof.
  intros Hg H. rewrite rmatch_seq in H.
  apply rmatch_consumes in H as (u & s' & c' & -> & H & Hc).
  rewrite (Hc Hg) in H. eauto.
Qed.

(** The greedy group [(cs+)] at the end of a pattern. *)
Lemma greedy_group_inv (cs : list ClassAtom) (s S0 : string) (c m : Captures) :
  rmatch true (RGroup 1 (RRep cs 1 None true)) s c
    (fun s' c' => Some ((0%nat, consumed S0 s') :: c')) = Some m ->
  exists run rest,
    s = run ++ rest /\ run <> "" /\
    allChars (inClass true cs) run = true /\
    capture 1 m = Some run.
Proof.
  intros H. rewrite rmatch_group, rmatch_rep in H.
  apply repeatClass_inv in H as (run & rest & -> & Hall & Hlen & _ & Hk).
  exists run, rest. split; [reflexivity|]. split.
  - destruct run; [simpl in Hlen; lia | discriminate].
  - split; [exact Hall|]. rewrite consumed_append in Hk. inversion Hk. reflexivity.
Qed.

Lemma allChars_digit_class' (s : string) :
  allChars (inClass true [CDigit]) s = allChars isDigit s.
Proof. apply allChars_ext. intros x. apply inClass_digit. Qed.

Lemma allChars_substring (p : ascii -> bool) (u s : string) :
  Substring u s -> allChars p s = true -> allChars p u = true.
Proof.
  intros (a & b & ->) H. rewrite !allChars_append in H.
  apply andb_true_iff in H as [_ H]. now apply andb_true_iff in H as [H _].
Qed.

Lemma Substring_suffix (u s pre : string) : Substring u s -> Substring u (pre ++ s).
Proof.
  intros (a & b & ->). exists (pre ++ a), b. now rewrite append_assoc'.
Qed.

Lemma Substring_here (u rest : string) : Substring u (u ++ rest).
Proof. now exists "", rest. Qed.

(** The capture of the case-identifier pattern. *)
Lemma caseIdRe_capture (s : string) (m : Captures) :
  matchHere true caseIdRe s = Some m ->
  exists run, capture 1 m = Some run /\ run <> "" /\ Substring run s /\
              allChars (inClass true tokenClass) run = true.
Proof.
  unfold matchHere, caseIdRe. intros H.
  apply rmatch_prefix in H as (u1 & s1 & -> & H); [|reflexivity].
  apply rmatch_prefix in H as (u2 & s2 & -> & H); [|reflexivity].
  apply rmatch_prefix in H as (u3 & s3 & -> & H); [|reflexivity].
  apply greedy_group_inv in H as (run & rest & -> & Hne & Hall & Hcap).
  exists run. repeat split; auto.
  do 3 apply Substring_suffix. apply Substring_here.
Qed.

Lemma sectorRe_capture (s : string) (m : Captures) :
  matchHere true sectorRe s = Some m ->
  exists run, capture 1 m = Some run /\ run <> "" /\ Substring run s /\
              allChars (inClass true [CDigit]) run = true.
Proof.
  unfold matchHere, sectorRe. intros H.
  apply rmatch_prefix in H as (u1 & s1 & -> & H); [|reflexivity].
  apply rmatch_prefix in H as (u2 & s2 & -> & H); [|reflexivity].
  apply greedy_group_inv in H as (run & rest & -> & Hne & Hall & Hcap).
  exists run. repeat split; auto.
  do 2 apply Substring_suffix. apply Substring_here.
Qed.

Lemma districtRe_capture (s : string) (m : Captures) :
  matchHere true districtRe s = Some m ->
  exists run, capture 1 m = Some run /\ run <> "" /\ Substring run s /\
              allChars (inClass true [az; d09; CSpace]) run = true.
Proof.
  unfold matchHere, districtRe. intros H.
  apply rmatch_prefix in H as (u1 & s1 & -> & H); [|reflexivity].
  apply rmatch_prefix in H as (u2 & s2 & -> & H); [|reflexivity].
  apply greedy_group_inv in H as (run & rest & -> & Hne & Hall & Hcap).
  exists run. repeat split; auto.
  do 2 apply Substring_suffix. apply Substring_here.
Qed.

Lemma prepositionRe_capture (s : string) (m : Captures) :
  matchHere true prepositionRe s = Some m ->
  exists x run,
    capture 1 m = Some (String x run) /\ Substring (String x run) s /\
    allChars (inClass true [az; d09; CSpace]) (String x run) = true /\
    allChars (fun y => negb (isWhiteSpace y)) run = true.
Proof.
  unfold matchHere, prepositionRe. intros H.
  apply rmatch_prefix in H as (u1 & s1 & -> & H); [|reflexivity].
  apply rmatch_prefix in H as (u2 & s2 & -> & H); [|reflexivity].
  apply lazy_group_inv in H as (x & run & rest & -> & Hall & Hnows & Hcap).
  exists x, run. repeat split; auto.
  do 2 apply Substring_suffix. apply Substring_here.
Qed.

Lemma suspectRe_capture (s : string) (m : Captures) :
  matchHere true suspectRe s = Some m ->
  exists x run,
    capture 1 m = Some (String x run) /\ Substring (String x run) s /\
    allChars (inClass true [az; CSpace]) (String x run) = true /\
    allChars (fun y => negb (isWhiteSpace y)) run = true.
Proof.
  unfold matchHere, suspectRe. intros H.
  apply rmatch_prefix in H as (u1 & s1 & -> & H); [|reflexivity].
  apply rmatch_prefix in H as (u2 & s2 & -> & H); [|reflexivity].
  apply rmatch_prefix in H as (u3 & s3 & -> & H); [|reflexivity].
  apply lazy_group_inv in H as (x & run & rest & -> & Hall & Hnows & Hcap).
  exists x, run. repeat split; auto.
  do 3 apply Substring_suffix. apply Substring_here.
Qed.

(** From a match somewhere in the text to the match at its position. *)
Lemma regexMatch_here (ic : bool) (r : regex) (text : string) (m : Captures) :
  regexMatch ic r text = Some m ->
  exists pre s, text = pre ++ s /\ matchHere ic r s = Some m.
Proof.
  intros H. apply regexMatch_inv in H as (pre & s & E & Hm & _). eauto.
Qed.

End CaptureFacts.

Section ShapeOfFields.
Context {host : Host}.

Lemma token_of_class (run : string) :
  lowered run = true -> allChars (inClass true tokenClass) run = true ->
  allChars isTokenChar run = true.
Proof.
  intros Hl Hc. unfold lowered in Hl.
  apply (allChars_and _ _ _ run) with (2 := Hl) (3 := Hc).
  intros x Hx Hcx. apply negb_true_iff in Hx. now rewrite <- token_class_lowered.
Qed.

Lemma location_of_class (run : string) :
  lowered run = true -> allChars (inClass true [az; d09; CSpace]) run = true ->
  allChars isLocationChar run = true.
Proof.
  intros Hl Hc. unfold lowered in Hl.
  apply (allChars_and _ _ _ run) with (2 := Hl) (3 := Hc).
  intros x Hx Hcx. apply negb_true_iff in Hx. unfold isLocationChar.
  now rewrite <- alnum_class_lowered.
Qed.

Lemma no_space_of_location (x : ascii) :
  isLocationChar x = true -> negb (isWhiteSpace x) = true -> isLowerAlnum x = true.
Proof.
  unfold isLocationChar. intros H Hn. apply negb_true_iff in Hn.
  rewrite Hn, orb_false_r in H. exact H.
Qed.

Lemma letter_of_class (x : ascii) :
  negb (hasLower x) = true -> inClass true [az; CSpace] x = true ->
  negb (isWhiteSpace x) = true -> isLowerLetter x = true.
Proof.
  intros Hl Hc Hn. apply negb_true_iff in Hl, Hn.
  now rewrite <- letter_class_lowered.
Qed.

Lemma trim_no_space (s : string) :
  allChars (fun y => negb (isWhiteSpace y)) s = true -> trim s = s.
Proof.
  intros H. unfold trim. rewrite trimStart_fixes; [now apply trimEnd_no_space|].
  destruct s as [|x s]; [reflexivity|]. cbn [allChars headIs] in *.
  apply andb_true_iff in H as [Hx _]. now apply negb_true_iff in Hx.
Qed.

Lemma trimStart_substring (s : string) : Substring (trimStart s) s.
Proof.
  induction s as [|x s IH]; [now exists "", ""|]. simpl.
  destruct (isWhiteSpace x); [now apply Substring_cons|].
  exists "", "". simpl. now rewrite append_empty_r.
Qed.

Lemma trimEnd_prefix (s : string) : exists b, s = trimEnd s ++ b.
Proof.
  induction s as [|x s [b IH]]; [now exists ""|]. cbn [trimEnd].
  destruct (trimEnd s) as [|y u] eqn:E.
  - destruct (isWhiteSpace x); [now exists (String x s)|].
    exists s. reflexivity.
  - exists b. change (String x s = String x (String y u ++ b)). now rewrite <- IH.
Qed.

Lemma trim_substring (s : string) : Substring (trim s) s.
Proof.
  unfold trim. eapply Substring_trans; [|apply trimStart_substring].
  destruct (trimEnd_prefix (trimStart s)) as [b E]. exists "", b. exact E.
Qed.

(** The trimmed capture of a lazy group: one word, possibly empty. *)
Lemma lazy_capture_word (p q : ascii -> bool) (x : ascii) (run : string) :
  allChars p (String x run) = true ->
  allChars (fun y => negb (isWhiteSpace y)) run = true ->
  (forall y, p y = true -> negb (isWhiteSpace y) = true -> q y = true) ->
  allChars q (trim (String x run)) = true.
Proof.
  intros Hp Hn Hpq. rewrite (trim_lazy_capture x run Hn).
  cbn [allChars] in Hp. apply andb_true_iff in Hp as [Hx Hp].
  assert (Hrun : allChars q run = true)
    by (apply (allChars_and p (fun y => negb (isWhiteSpace y)) q run); auto).
  destruct (isWhiteSpace x) eqn:Ex; [exact Hrun|].
  cbn [allChars]. rewrite Hrun, (Hpq x Hx); [reflexivity | now rewrite Ex].
Qed.

Lemma both_allChars (p q : ascii -> bool) (s : string) :
  allChars p s = true -> allChars q s = true ->
  allChars (fun y => p y && q y) s = true.
Proof.
  intros Hp Hq. apply (allChars_and p q _ s); auto.
  intros x Hx Hy. now rewrite Hx, Hy.
Qed.

Lemma caseId_shape (text : string) (e : CommandEntities) (c : string) :
  lowered text = true -> extractEntities text = Normal e -> caseId e = Some c ->
  c <> "" /\ allChars isTokenChar c = true /\ Substring c text.
Proof.
  intros Hl He Hc. destruct (extractEntities_all text e He) as (_ & _ & Hcase & _).
  rewrite Hcase in Hc.
  destruct (regexMatch true caseIdRe text) as [m|] eqn:Em; [|discriminate].
  apply regexMatch_here in Em as (pre & s & -> & Hm).
  apply caseIdRe_capture in Hm as (run & Hcap & Hne & Hsub & Hall).
  rewrite Hcap in Hc. inversion Hc; subst c.
  assert (Hsub' : Substring run (pre ++ s)) by now apply Substring_suffix.
  repeat split; auto. apply token_of_class; [|exact Hall].
  unfold lowered in *. eapply allChars_substring; eauto.
Qed.

Lemma suspect_shape (text : string) (e : CommandEntities) (sus : string) :
  lowered text = true -> extractEntities text = Normal e -> suspect e = Some sus ->
  allChars isLowerLetter sus = true /\ Substring sus text.
Proof.
  intros Hl He Hs.
  destruct (extractEntities_all text e He) as (_ & _ & _ & _ & Hsus & _).
  rewrite Hsus in Hs.
  destruct (regexMatch true suspectRe text) as [m|] eqn:Em; [|discriminate].
  apply regexMatch_here in Em as (pre & s & -> & Hm).
  apply suspectRe_capture in Hm as (x & run & Hcap & Hsub & Hall & Hnows).
  rewrite Hcap in Hs. inversion Hs; subst sus.
  assert (Hsub' : Substring (String x run) (pre ++ s)) by now apply Substring_suffix.
  assert (Hlow : allChars (fun y => negb (hasLower y)) (String x run) = true)
    by (eapply allChars_substring; eauto).
  split.
  - apply (lazy_capture_word
             (fun y => negb (hasLower y) && inClass true [az; CSpace] y)); auto.
    + now apply both_allChars.
    + intros y Hy Hn. apply andb_true_iff in Hy as [Hy1 Hy2].
      now apply letter_of_class.
  - eapply Substring_trans; [apply trim_substring | exact Hsub'].
Qed.

Lemma location_shape (text : string) (e : CommandEntities) (loc : string) :
  lowered text = true -> extractEntities text = Normal e -> location e = Some loc ->
  allChars isLocationChar loc = true /\ trim loc = loc /\ Substring loc text /\
  (regexMatch true prepositionRe text <> None -> allChars isLowerAlnum loc = true).
Proof.
  intros Hl He Hloc.
  destruct (extractEntities_all text e He) as (_ & _ & _ & Hlocation & _).
  rewrite Hlocation in Hloc. unfold orElse in Hloc.
  destruct (regexMatch true prepositionRe text) as [m|] eqn:E1.
  - apply regexMatch_here in E1 as (pre & s & -> & Hm).
    apply prepositionRe_capture in Hm as (x & run & Hcap & Hsub & Hall & Hnows).
    rewrite Hcap in Hloc. inversion Hloc; subst loc.
    assert (Hsub' : Substring (String x run) (pre ++ s)) by now apply Substring_suffix.
    assert (Hlow : lowered (String x run) = true)
      by (unfold lowered in *; eapply allChars_substring; eauto).
    assert (Halnum : allChars isLowerAlnum (trim (String x run)) = true).
    { apply (lazy_capture_word isLocationChar); auto.
      - now apply location_of_class.
      - apply no_space_of_location. }
    split; [|split; [|split]].
    + revert Halnum. apply allChars_impl. intros y Hy. unfold isLocationChar.
      now rewrite Hy.
    + apply trim_idem.
    + eapply Substring_trans; [apply trim_substring | exact Hsub'].
    + intros _. exact Halnum.
  - destruct (regexMatch true sectorRe text) as [m|] eqn:E2.
    + apply regexMatch_here in E2 as (pre & s & -> & Hm).
      apply sectorRe_capture in Hm as (run & Hcap & Hne & Hsub & Hall).
      rewrite Hcap in Hloc. inversion Hloc; subst loc.
      rewrite allChars_digit_class' in Hall.
      assert (Hnows : allChars (fun y => negb (isWhiteSpace y)) run = true).
      { revert Hall. apply allChars_impl. intros y Hy.
        now rewrite (alnum_not_space y (digit_alnum y Hy)). }
      rewrite (trim_no_space run Hnows).
      split; [|split; [|split]].
      * revert Hall. apply allChars_impl. intros y Hy. unfold isLocationChar.
        now rewrite (digit_alnum y Hy).
      * now apply trim_no_space.
      * now apply Substring_suffix.
      * congruence.
    + destruct (regexMatch true districtRe text) as [m|] eqn:E3; [|discriminate].
      apply regexMatch_here in E3 as (pre & s & -> & Hm).
      apply districtRe_capture in Hm as (run & Hcap & Hne & Hsub & Hall).
      rewrite Hcap in Hloc. inversion Hloc; subst loc.
      assert (Hsub' : Substring run (pre ++ s)) by now apply Substring_suffix.
      assert (Hlow : lowered run = true)
        by (unfold lowered in *; eapply allChars_substring; eauto).
      split; [|split; [|split]].
      * unfold trim. apply allChars_trimEnd, allChars_trimStart.
        now apply location_of_class.
      * apply trim_idem.
      * eapply Substring_trans; [apply trim_substring | exact Hsub'].
      * congruence.
Qed.

End ShapeOfFields.

(* ================================================================== *)
(** * The voice command center                                         *)
(* ================================================================== *)

Section CenterFacts.
Context {host : Host}.

(** No question of the clarifier is the empty string. *)
Lemma question_truthy (i : CommandIntent) (e : CommandEntities) (text : string) :
  truthy (Some (generateClarificationQuestion i e text)) = true.
Proof.
  unfold generateClarificationQuestion.
  destruct (isUnknown i); [reflexivity|].
  destruct (isNone (crimeType e) && negb (truthy (location e)) && isNone (timeRange e));
    [reflexivity|].
  destruct (match crimeType e with Some l => (1 <? List.length l)%nat | None => false end);
    [reflexivity|].
  destruct (isNone (timeRange e)); [reflexivity|].
  destruct (negb (truthy (location e))); reflexivity.
Qed.

(** One handled command: the state it leaves and the effects it has. *)
Lemma handleVoiceCommand_step (hasListener : bool) (t : string) (st : CenterState) :
  exists p,
    parseVoiceCommand t = Normal p /\
    handleVoiceCommand hasListener t st =
    Normal
      (mkCenter (Some p) (t :: firstn 4 (commandHistory st)),
       (ConsoleLog "Parsed command:" p ::
        match clarificationQuestion p with
        | Some q => [Speak q 1.0 1.0; Toast "Clarification Needed" q]
        | None =>
            [Speak ("Searching for " ++ formatCommandSummary p) 1.1 1.0;
             Toast "Command Recognized" (formatCommandSummary p)]
        end ++
        (if hasListener then [OnCommandParsed p] else []))%list).
Proof.
  destruct (parseVoiceCommand_shape t) as (e & _ & Hp).
  eexists. split; [exact Hp|].
  unfold handleVoiceCommand. rewrite Hp. cbn [bind]. cbv zeta.
  cbn [needsClarification clarificationQuestion lastCommand commandHistory slice0].
  destruct (_ <? 0.7)%float.
  - rewrite question_truthy. cbn [andb valueOf].
    destruct hasListener; reflexivity.
  - cbn [andb]. destruct hasListener; reflexivity.
Qed.

Lemma firstn_app_firstn {A : Type} (n : nat) (a c : list A) :
  firstn n (a ++ firstn n c) = firstn n (a ++ c).
Proof.
  rewrite !firstn_app, firstn_firstn. f_equal. f_equal. lia.
Qed.

(** The history after a run of commands, from any state. *)
Lemma handleAll_history (hasListener : bool) (texts : list string) :
  forall st,
    exists st' effects,
      handleAll hasListener texts st = Normal (st', effects) /\
      commandHistory st' =
        match texts with
        | [] => commandHistory st
        | _ => firstn 5 (rev texts ++ commandHistory st)
        end /\
      lastCommand st' =
        match rev texts with
        | [] => lastCommand st
        | t :: _ =>
            match parseVoiceCommand t with
            | Normal p => Some p
            | ThrowTypeError => None
            end
        end.
Proof.
  induction texts as [|t rest IH]; intros st.
  - exists st, []. repeat split.
  - destruct (handleVoiceCommand_step hasListener t st) as (p & Hp & Hstep).
    cbn [handleAll]. rewrite Hstep. cbn [bind fst snd].
    destruct (IH (mkCenter (Some p) (t :: firstn 4 (commandHistory st))))
      as (st' & effects & Hall & Hhist & Hlast).
    rewrite Hall. cbn [bind fst snd]. eexists. eexists. split; [reflexivity|].
    cbn [commandHistory lastCommand] in Hhist, Hlast. split.
    + rewrite Hhist. destruct rest as [|t2 rest]; [reflexivity|].
      change (t :: firstn 4 (commandHistory st)) with (firstn 5 (t :: commandHistory st)).
      rewrite firstn_app_firstn. cbn [rev]. now rewrite <- !app_assoc.
    + rewrite Hlast. cbn [rev].
      destruct (rev rest) as [|t2 l] eqn:E; cbn [app]; [now rewrite Hp | reflexivity].
Qed.

End CenterFacts.

(* ================================================================== *)
(** * Further properties, one by one                                   *)
(* ================================================================== *)

Section Further.
Context {host : Host}.

(** X1.  The interpreter reads its input up to letter case and outer white
    space: normalizing is idempotent, lower-casing first or adding white
    space around the text does not change the normalized text, and two
    inputs with the same normalized text are parsed, on the same clock
    readings, to the same intent, entities, confidence and clarification. *)
Theorem parse_up_to_normalization (t u : string) :
  normalize (normalize t) = normalize t /\
  normalize (toLowerCase t) = normalize t /\
  (forall pre post,
      allChars isWhiteSpace pre = true -> allChars isWhiteSpace post = true ->
      normalize (pre ++ t ++ post) = normalize t) /\
  (normalize t = normalize u ->
   exists p q,
     parseVoiceCommand t = Normal p /\ parseVoiceCommand u = Normal q /\
     intent p = intent q /\ entities p = entities q /\
     confidence p = confidence q /\
     needsClarification p = needsClarification q /\
     clarificationQuestion p = clarificationQuestion q).
Proof.
  split; [|split; [|split]].
  - unfold normalize. now rewrite <- trim_lower, toLowerCase_idem, trim_idem.
  - unfold normalize. now rewrite toLowerCase_idem.
  - intros pre post Hpre Hpost. unfold normalize, toLowerCase.
    rewrite !mapChars_append. apply trim_spaces.
    + clear -Hpre. induction pre as [|x pre IH]; [reflexivity|].
      cbn [allChars mapChars] in *. apply andb_true_iff in Hpre as [Hx Hpre].
      now rewrite lowerChar_space, Hx, IH.
    + clear -Hpost. induction post as [|x post IH]; [reflexivity|].
      cbn [allChars mapChars] in *. apply andb_true_iff in Hpost as [Hx Hpost].
      now rewrite lowerChar_space, Hx, IH.
  - intros E.
    destruct (parseVoiceCommand_shape t) as (e & He & Hp).
    destruct (parseVoiceCommand_shape u) as (e' & He' & Hq).
    rewrite <- E in He', Hq. rewrite He in He'. inversion He'; subst e'.
    eexists. eexists. split; [exact Hp|]. split; [exact Hq|].
    cbn. repeat split.
Qed.

(** X2.  The classifier and the extractor agree: a [crime_type_query] always
    carries crime types, a [temporal_query] always carries a time range with
    a relative label, and a [search_cases] carries neither crime types nor a
    relative label. *)
Theorem intent_agrees_with_entities (t : string) (p : ParsedCommand) :
  parseVoiceCommand t = Normal p ->
  (intent p = crime_type_query -> crimeType (entities p) <> None) /\
  (intent p = temporal_query -> relativeLabel (entities p) <> None) /\
  (intent p = search_cases ->
   crimeType (entities p) = None /\ relativeLabel (entities p) = None).
Proof. apply agreement_of_intent. Qed.

(** X3.  Whenever a crime type or a time range is extracted, keywords are
    extracted as well, so at least two entity fields are present. *)
Theorem keywords_accompany_crime_and_time (text : string) (e : CommandEntities) :
  extractEntities text = Normal e ->
  crimeType e <> None \/ timeRange e <> None ->
  keywords e <> None /\ (2 <= entityCount e)%nat.
Proof. apply two_fields_with_crime_or_time. Qed.

(** X4.  The threshold test as a table: a parsed command needs no
    clarification exactly when the intent is known and two entity fields are
    present, or the intent is known, one field is present and the text has
    four words, or the intent is unknown, two fields are present and the text
    has eight words. *)
Theorem needsClarification_table (t : string) (p : ParsedCommand) :
  parseVoiceCommand t = Normal p ->
  needsClarification p =
    clarifies (negb (isUnknown (intent p))) (entityCount (entities p)) (wordCountOf t).
Proof. apply needsClarification_as_table. Qed.

(** X5.  The confidence of a parsed command is strictly below 1: the final
    [Math.min(score, 1.0)] never changes the score. *)
Theorem confidence_below_one (t : string) (p : ParsedCommand) :
  parseVoiceCommand t = Normal p ->
  (confidence p <? 1)%float = true.
Proof.
  intros Hp. destruct (parseVoiceCommand_inv t p Hp) as (_ & _ & Hc & _).
  rewrite Hc. apply calculateConfidence_table.
Qed.

(** X6.  A command with a known intent and a crime type or a time range
    never needs clarification; in particular no [crime_type_query] and no
    [temporal_query] does. *)
Theorem known_intent_with_crime_or_time_is_clear (t : string) (p : ParsedCommand) :
  parseVoiceCommand t = Normal p ->
  (intent p <> unknown ->
   crimeType (entities p) <> None \/ timeRange (entities p) <> None ->
   needsClarification p = false /\ clarificationQuestion p = None) /\
  (intent p = crime_type_query \/ intent p = temporal_query ->
   needsClarification p = false /\ clarificationQuestion p = None).
Proof. apply clear_with_crime_or_time. Qed.

(** X7.  Of the six questions of the clarifier only three are ever asked:
    the one for an unknown intent, the request for more details and the one
    for a time period, and each of these is asked on some input.  The
    questions about several crime types, about the location, and the closing
    one are never returned by [parseVoiceCommand]. *)
Theorem clarificationQuestion_is_one_of_three :
  (forall t p q,
      parseVoiceCommand t = Normal p -> clarificationQuestion p = Some q ->
      q = questionUnknown \/ q = questionDetails \/ q = questionTime) /\
  (exists p, parseVoiceCommand "" = Normal p /\
             clarificationQuestion p = Some questionUnknown) /\
  (exists p, parseVoiceCommand "in   !" = Normal p /\
             clarificationQuestion p = Some questionDetails) /\
  (exists p, parseVoiceCommand "in at" = Normal p /\
             clarificationQuestion p = Some questionTime).
Proof.
  split; [intros t p q; apply question_among_three|].
  repeat split; (eexists; split; [vm_compute; reflexivity | reflexivity]).
Qed.

(** X8.  The keywords have no repetition, and a string is a keyword exactly
    when it is the cleaned form of a white-space separated piece of the text,
    is longer than two and is no stop word; every keyword consists of
    lower-case letters and digits. *)
Theorem extractKeywords_invariants (text : string) :
  NoDup (extractKeywords text) /\
  (forall k,
      In k (extractKeywords text) <->
      (exists piece, In piece (splitWhiteSpace text) /\ k = cleanWord piece) /\
      (2 < String.length k)%nat /\ ~ In k stopWords) /\
  (forall k, In k (extractKeywords text) -> allChars isLowerAlnum k = true).
Proof. apply keywords_characterised. Qed.

(** X9.  A case id, when present, is a non-empty run of lower-case letters,
    digits and hyphens that occurs in the normalized text. *)
Theorem caseId_is_a_token (t : string) (p : ParsedCommand) (c : string) :
  parseVoiceCommand t = Normal p ->
  caseId (entities p) = Some c ->
  c <> "" /\ allChars isTokenChar c = true /\ Substring c (normalize t).
Proof.
  intros Hp Hc. destruct (parseVoiceCommand_inv t p Hp) as (He & _).
  eapply caseId_shape; eauto. apply lowered_normalize.
Qed.

(** X10.  A suspect, when present, is one word of lower-case letters from
    the normalized text, possibly the empty one: the name is cut at the first
    white space. *)
Theorem suspect_is_one_word (t : string) (p : ParsedCommand) (sus : string) :
  parseVoiceCommand t = Normal p ->
  suspect (entities p) = Some sus ->
  allChars isLowerLetter sus = true /\ Substring sus (normalize t).
Proof.
  intros Hp Hs. destruct (parseVoiceCommand_inv t p Hp) as (He & _).
  eapply suspect_shape; eauto. apply lowered_normalize.
Qed.

(** X11.  A location, when present, is a piece of the normalized text made
    of lower-case letters, digits and white space, with no white space at
    either end; when the preposition pattern matches anywhere in the text it
    is one word of letters and digits, possibly the empty one. *)
Theorem location_shape_of_parse (t : string) (p : ParsedCommand) (loc : string) :
  parseVoiceCommand t = Normal p ->
  location (entities p) = Some loc ->
  allChars isLocationChar loc = true /\ trim loc = loc /\
  Substring loc (normalize t) /\
  (regexMatch true prepositionRe (normalize t) <> None ->
   allChars isLowerAlnum loc = true).
Proof.
  intros Hp Hl. destruct (parseVoiceCommand_inv t p Hp) as (He & _).
  eapply location_shape; eauto. apply lowered_normalize.
Qed.

Lemma vocabulary_lowered : forallb lowered CRIME_TYPES = true.
Proof. vm_compute. reflexivity. Qed.

Lemma lowered_of (p : ascii -> bool) (s : string) :
  (forall x, p x = true -> hasLower x = false) ->
  allChars p s = true -> lowered s = true.
Proof.
  intros H. unfold lowered. apply allChars_impl.
  intros x Hx. now rewrite (H x Hx).
Qed.

Lemma location_char_lowered (x : ascii) : isLocationChar x = true -> hasLower x = false.
Proof. by_cases_on x. Qed.

Lemma letter_lowered (x : ascii) : isLowerLetter x = true -> hasLower x = false.
Proof. by_cases_on x. Qed.

(** X12.  Every string of the entities is in lower case: the crime types,
    the location, the suspect, the case id and the keywords. *)
Theorem extracted_strings_are_lower_case (t : string) (p : ParsedCommand) :
  parseVoiceCommand t = Normal p ->
  (forall l ty, crimeType (entities p) = Some l -> In ty l -> lowered ty = true) /\
  (forall loc, location (entities p) = Some loc -> lowered loc = true) /\
  (forall sus, suspect (entities p) = Some sus -> lowered sus = true) /\
  (forall c, caseId (entities p) = Some c -> lowered c = true) /\
  (forall l k, keywords (entities p) = Some l -> In k l -> lowered k = true).
Proof.
  intros Hp. destruct (parseVoiceCommand_inv t p Hp) as (He & _).
  pose proof (lowered_normalize t) as Hl.
  destruct (extractEntities_all _ _ He) as (Hcrime & _ & _ & _ & _ & Hkw).
  split; [|split; [|split; [|split]]].
  - intros l ty Hsome Hin. rewrite Hcrime in Hsome. cbv zeta in Hsome.
    match type of Hsome with context [if ?b then _ else _] => destruct b end;
      [|discriminate].
    apply (f_equal (fun o => match o with Some x => x | None => [] end)) in Hsome.
    cbv beta iota in Hsome. subst l.
    apply filter_In in Hin as [Hin _].
    pose proof vocabulary_lowered as Hv. rewrite forallb_forall in Hv. now apply Hv.
  - intros loc Hloc. destruct (location_shape _ _ _ Hl He Hloc) as (H & _).
    exact (lowered_of _ _ location_char_lowered H).
  - intros sus Hsus. destruct (suspect_shape _ _ _ Hl He Hsus) as (H & _).
    exact (lowered_of _ _ letter_lowered H).
  - intros c Hc. destruct (caseId_shape _ _ _ Hl He Hc) as (_ & H & _).
    exact (lowered_of _ _ token_lowered H).
  - intros l k Hsome Hin. rewrite Hkw in Hsome.
    match type of Hsome with context [if ?b then _ else _] => destruct b end;
      [|discriminate].
    apply (f_equal (fun o => match o with Some x => x | None => [] end)) in Hsome.
    cbv beta iota in Hsome. subst l.
    destruct (keywords_characterised (normalize t)) as (_ & _ & Halnum).
    exact (lowered_of _ _ alnum_lowered (Halnum k Hin)).
Qed.

(** X13.  The command history holds the five most recent commands, the
    newest first: after a run of commands from the initial state it is the
    first five of the texts in reverse, the run never throws, and the last
    command is the parse of the last text. *)
Theorem command_history_keeps_five (hasListener : bool) (texts : list string) :
  exists st effects,
    handleAll hasListener texts initialCenter = Normal (st, effects) /\
    commandHistory st = firstn 5 (rev texts) /\
    (List.length (commandHistory st) <= 5)%nat /\
    lastCommand st =
      match rev texts with
      | [] => None
      | t :: _ =>
          match parseVoiceCommand t with
          | Normal p => Some p
          | ThrowTypeError => None
          end
      end.
Proof.
  destruct (handleAll_history hasListener texts initialCenter)
    as (st & effects & Hall & Hhist & Hlast).
  exists st, effects. split; [exact Hall|].
  assert (H : commandHistory st = firstn 5 (rev texts)).
  { rewrite Hhist. cbn [initialCenter commandHistory]. rewrite app_nil_r.
    destruct texts; reflexivity. }
  split; [exact H|]. split; [rewrite H; apply firstn_le_length | exact Hlast].
Qed.

(** X14.  The feedback of a handled command follows the threshold alone:
    below 0.7 the question is spoken and shown as "Clarification Needed",
    otherwise "Searching for" and the summary are spoken and the summary is
    shown as "Command Recognized"; the test on the question itself never
    decides, since no question is empty.  The handler never throws, stores
    the parsed command and puts the text in front of the first four entries
    of the history. *)
Theorem handleVoiceCommand_feedback (hasListener : bool) (t : string) (st : CenterState) :
  exists p,
    parseVoiceCommand t = Normal p /\
    handleVoiceCommand hasListener t st =
    Normal
      (mkCenter (Some p) (t :: firstn 4 (commandHistory st)),
       (ConsoleLog "Parsed command:" p ::
        (if (confidence p <? 0.7)%float
         then [Speak (valueOf (clarificationQuestion p)) 1.0 1.0;
               Toast "Clarification Needed" (valueOf (clarificationQuestion p))]
         else [Speak ("Searching for " ++ formatCommandSummary p) 1.1 1.0;
               Toast "Command Recognized" (formatCommandSummary p)]) ++
        (if hasListener then [OnCommandParsed p] else []))%list).
Proof.
  destruct (handleVoiceCommand_step hasListener t st) as (p & Hp & Hstep).
  exists p. split; [exact Hp|]. rewrite Hstep.
  destruct (parseVoiceCommand_inv t p Hp) as (_ & _ & _ & _ & _ & Hq).
  rewrite Hq. destruct (confidence p <? 0.7)%float; reflexivity.
Qed.

Lemma toLowerCase_empty (s : string) : toLowerCase s = "" -> s = "".
Proof. destruct s; [reflexivity | discriminate]. Qed.

(** X15.  The recognition callback hands over only final transcripts that
    are not blank, and then the normalized text is not empty; any other
    result leaves the state as it is and has no effect. *)
Theorem onRecognitionResult_guard (hasListener isFinal : bool) (transcript : string)
    (st : CenterState) :
  (isFinal = true /\ trim transcript <> "" /\ normalize transcript <> "" /\
   onRecognitionResult hasListener isFinal transcript st =
     handleVoiceCommand hasListener transcript st) \/
  ((isFinal = false \/ trim transcript = "") /\
   onRecognitionResult hasListener isFinal transcript st = Normal (st, [])).
Proof.
  unfold onRecognitionResult. destruct isFinal; [|right; auto].
  destruct (trim transcript) as [|x s] eqn:E; [right; auto|].
  left. repeat split; try discriminate.
  unfold normalize. rewrite trim_lower, E. discriminate.
Qed.

End Further.

(* ------------------------------------------------------------------ *)
(** ** The properties at concrete inputs                               *)
(* ------------------------------------------------------------------ *)

Lemma intent_agrees_with_entities_witness :
  exists p,
    parseVoiceCommand (host := sampleHost) "Robbery cases last week" = Normal p /\
    intent p = temporal_query /\
    relativeLabel (entities p) <> None.
Proof.
  eexists. split; [vm_compute; reflexivity|]. split; [reflexivity|].
  eapply (intent_agrees_with_entities (host := sampleHost) "Robbery cases last week").
  - vm_compute; reflexivity.
  - reflexivity.
Defined.

Lemma keywords_accompany_crime_and_time_witness :
  exists e,
    extractEntities (host := sampleHost) "fraud" = Normal e /\
    keywords e <> None /\ (2 <= entityCount e)%nat.
Proof.
  eexists. split; [vm_compute; reflexivity|].
  eapply (keywords_accompany_crime_and_time (host := sampleHost) "fraud").
  - vm_compute; reflexivity.
  - left. vm_compute. intros H. discriminate H.
Defined.

Lemma needsClarification_table_witness :
  exists p,
    parseVoiceCommand (host := sampleHost) "find the open files" = Normal p /\
    needsClarification p = clarifies true 1 4.
Proof.
  eexists. split; [vm_compute; reflexivity|].
  apply (needsClarification_table (host := sampleHost) "find the open files").
  vm_compute; reflexivity.
Defined.

Lemma confidence_below_one_witness :
  exists p,
    parseVoiceCommand (host := sampleHost)
      "armed robbery in sector 9 last week by john case 42" = Normal p /\
    (confidence p <? 1)%float = true.
Proof.
  eexists. split; [vm_compute; reflexivity|].
  apply (confidence_below_one (host := sampleHost)
           "armed robbery in sector 9 last week by john case 42").
  vm_compute; reflexivity.
Defined.

Lemma known_intent_with_crime_or_time_is_clear_witness :
  exists p,
    parseVoiceCommand (host := sampleHost) "filter theft" = Normal p /\
    needsClarification p = false /\ clarificationQuestion p = None.
Proof.
  eexists. split; [vm_compute; reflexivity|].
  edestruct (known_intent_with_crime_or_time_is_clear (host := sampleHost) "filter theft")
    as (Hclear & _); [vm_compute; reflexivity|].
  apply Hclear.
  - vm_compute. intros H. discriminate H.
  - left. vm_compute. intros H. discriminate H.
Defined.

Lemma caseId_is_a_token_witness :
  "a-17" <> "" /\ allChars isTokenChar "a-17" = true /\
  Substring "a-17" (normalize "Open CASE A-17 now").
Proof.
  eapply (caseId_is_a_token (host := sampleHost) "Open CASE A-17 now");
    vm_compute; reflexivity.
Defined.

Lemma suspect_is_one_word_witness :
  allChars isLowerLetter "john" = true /\
  Substring "john" (normalize "Suspect John Smith").
Proof.
  eapply (suspect_is_one_word (host := sampleHost) "Suspect John Smith");
    vm_compute; reflexivity.
Defined.

Lemma location_shape_of_parse_witness :
  allChars isLocationChar "sector" = true /\ trim "sector" = "sector" /\
  Substring "sector" (normalize "Cases in Sector 9") /\
  (regexMatch true prepositionRe (normalize "Cases in Sector 9") <> None ->
   allChars isLowerAlnum "sector" = true).
Proof.
  eapply (location_shape_of_parse (host := sampleHost) "Cases in Sector 9");
    vm_compute; reflexivity.
Defined.

Lemma extracted_strings_are_lower_case_witness :
  exists p,
    parseVoiceCommand (host := sampleHost) "Suspect JOHN near Downtown" = Normal p /\
    (forall l ty, crimeType (entities p) = Some l -> In ty l -> lowered ty = true) /\
    (forall loc, location (entities p) = Some loc -> lowered loc = true) /\
    (forall sus, suspect (entities p) = Some sus -> lowered sus = true) /\
    (forall c, caseId (entities p) = Some c -> lowered c = true) /\
    (forall l k, keywords (entities p) = Some l -> In k l -> lowered k = true).
Proof.
  eexists. split; [vm_compute; reflexivity|].
  apply (extracted_strings_are_lower_case (host := sampleHost) "Suspect JOHN near Downtown").
  vm_compute; reflexivity.
Defined.
